(** * Realtime update protocol of the UniFi Protect integration

    A shallow embedding of [ProtectWebSocket] (library websocket class):
    the frame decoder ([decodeUpdatePacket], [decodeUpdateFrame]), the
    packet router installed by [configureUpdatesListener], and the
    connection lifecycle ([launchUpdatesListener], [waitForBootstrap],
    [reconnectUpdatesListener], [sendPingPongMessage]).

    JavaScript values are an inductive type, exceptions are explicit
    completions, the object's fields and the event loop's resources
    (sockets, interval timers, scheduled callbacks) are a record that is
    threaded through the methods, and every observable call to a
    collaborator is appended to a trace. *)

From Stdlib Require Import ZArith List Bool Lia.
From Stdlib Require Import Strings.String Strings.Ascii Strings.Byte.
From Stdlib Require Import Floats.SpecFloat.
From stdpp Require Import base list gmap strings.
Import ListNotations.

Set Warnings "-register-all".
Local Open Scope Z_scope.

(** ** JavaScript values *)

(** A Node [Buffer]: a sequence of octets. *)
Abbreviation Buffer := (list byte).

(** The values the decoder can hand to the router: what [JSON.parse]
    builds, strings, buffers, and [undefined] for absent properties.
    Numbers are IEEE 754 binary64 values.  Strings hold the UTF-8
    encoding of the text. *)
Inductive value :=
| VUndefined
| VNull
| VBool (b : bool)
| VNum (x : spec_float)
| VStr (s : string)
| VArr (xs : list value)
| VObj (fields : list (string * value))
| VBuf (bs : Buffer).

(** What a JavaScript [throw] carries, as far as this program tells
    errors apart. *)
Inductive error :=
| RangeError
| TypeError
| SyntaxError
| ZlibError
| Error (message : string).

(** Outcome of evaluating an expression: a value, or a thrown error. *)
Inductive completion (A : Type) :=
| Normal (a : A)
| Throw (e : error).
Arguments Normal {A} a.
Arguments Throw {A} e.

(** ToBoolean. *)
Definition truthy (v : value) : bool :=
  match v with
  | VUndefined | VNull => false
  | VBool b => b
  | VNum (S754_zero _) | VNum S754_nan => false
  | VNum _ => true
  | VStr s => negb (String.eqb s "")
  | VArr _ | VObj _ | VBuf _ => true
  end.

Fixpoint assoc (k : string) (fields : list (string * value)) : option value :=
  match fields with
  | [] => None
  | (k', v) :: rest => if String.eqb k k' then Some v else assoc k rest
  end.

(** Property read [v.k] for a key that no built-in prototype defines
    (the router reads [action], [payload], [modelKey], [id], [stats]):
    a [TypeError] on [undefined] and [null], the own property of an
    object, [undefined] everywhere else. *)
Definition get_prop (v : value) (k : string) : completion value :=
  match v with
  | VUndefined | VNull => Throw TypeError
  | VObj fields => Normal (default VUndefined (assoc k fields))
  | _ => Normal VUndefined
  end.

(** [v !== 'literal'] *)
Definition strict_ne_string (v : value) (lit : string) : bool :=
  match v with
  | VStr s => negb (String.eqb s lit)
  | _ => true
  end.

(** ** Buffer primitives *)

Definition byteZ (b : byte) : Z := Z.of_N (Byte.to_N b).

Definition buf_length (buf : Buffer) : Z := Z.of_nat (length buf).

(** [buf.readUInt8(offset)]: a [RangeError] outside [0, length - 1]. *)
Definition readUInt8 (buf : Buffer) (offset : Z) : completion Z :=
  if (0 <=? offset) && (offset + 1 <=? buf_length buf) then
    match buf !! Z.to_nat offset with
    | Some b => Normal (byteZ b)
    | None => Throw RangeError
    end
  else Throw RangeError.

(** [buf.readUInt32BE(offset)]: a [RangeError] outside [0, length - 4]. *)
Definition readUInt32BE (buf : Buffer) (offset : Z) : completion Z :=
  if (0 <=? offset) && (offset + 4 <=? buf_length buf) then
    match take 4 (drop (Z.to_nat offset) buf) with
    | [b0; b1; b2; b3] =>
        Normal (byteZ b0 * 2 ^ 24 + byteZ b1 * 2 ^ 16 + byteZ b2 * 2 ^ 8 + byteZ b3)
    | _ => Throw RangeError
    end
  else Throw RangeError.

(** Index clamping of [buf.slice]: negative indices count from the end. *)
Definition clamp_index (len i : Z) : Z :=
  if i <? 0 then Z.max 0 (len + i) else Z.min i len.

(** [buf.slice(start, end)] *)
Definition slice (buf : Buffer) (start stop : Z) : Buffer :=
  let s := clamp_index (buf_length buf) start in
  let e := clamp_index (buf_length buf) stop in
  take (Z.to_nat (e - s)) (drop (Z.to_nat s) buf).

(** [buf.slice(start)] *)
Definition slice_from (buf : Buffer) (start : Z) : Buffer :=
  slice buf start (buf_length buf).

(** ** The runtime's codecs

    [zlib.inflateSync], [JSON.parse] and [Buffer.prototype.toString] are
    library functions; the decoder is stated over any implementation of
    them. *)
Record Runtime := {
  inflateSync : Buffer -> completion Buffer;
  JSON_parse : string -> completion value;
  toString : Buffer -> string
}.

(** ** A reference runtime

    One concrete implementation of the three codecs, on which the
    decoder can be run: a UTF-8 decoder with U+FFFD replacement, an
    inflater for zlib streams made of stored blocks, and a JSON reader
    for texts whose numbers are integers and whose strings use the
    two-character escapes. *)

Definition in_range (lo hi : Z) (b : byte) : bool :=
  (lo <=? byteZ b) && (byteZ b <=? hi).

Definition replacement : list byte := [xef; xbf; xbd].

(** Decoding proper: well-formed sequences are kept, and each maximal
    ill-formed prefix becomes U+FFFD. *)
Fixpoint utf8_sanitize (l : list byte) : list byte :=
  match l with
  | [] => []
  | b :: r =>
      if in_range 0 127 b then b :: utf8_sanitize r
      else if in_range 194 223 b then
        match r with
        | c1 :: r1 =>
            if in_range 128 191 c1 then b :: c1 :: utf8_sanitize r1
            else replacement ++ utf8_sanitize r
        | [] => replacement
        end
      else if in_range 224 239 b then
        let lo := if in_range 224 224 b then 160 else 128 in
        let hi := if in_range 237 237 b then 159 else 191 in
        match r with
        | c1 :: r1 =>
            if in_range lo hi c1 then
              match r1 with
              | c2 :: r2 =>
                  if in_range 128 191 c2 then b :: c1 :: c2 :: utf8_sanitize r2
                  else replacement ++ utf8_sanitize r1
              | [] => replacement
              end
            else replacement ++ utf8_sanitize r
        | [] => replacement
        end
      else if in_range 240 244 b then
        let lo := if in_range 240 240 b then 144 else 128 in
        let hi := if in_range 244 244 b then 143 else 191 in
        match r with
        | c1 :: r1 =>
            if in_range lo hi c1 then
              match r1 with
              | c2 :: r2 =>
                  if in_range 128 191 c2 then
                    match r2 with
                    | c3 :: r3 =>
                        if in_range 128 191 c3
                        then b :: c1 :: c2 :: c3 :: utf8_sanitize r3
                        else replacement ++ utf8_sanitize r2
                    | [] => replacement
                    end
                  else replacement ++ utf8_sanitize r1
              | [] => replacement
              end
            else replacement ++ utf8_sanitize r
        | [] => replacement
        end
      else replacement ++ utf8_sanitize r
  end.

Definition ref_toString (buf : Buffer) : string :=
  string_of_list_byte (utf8_sanitize buf).

(** Adler-32 checksum of the zlib trailer. *)
Definition adler32 (bs : Buffer) : Z :=
  let step (ab : Z * Z) (x : byte) :=
    let a := (fst ab + byteZ x) mod 65521 in (a, (snd ab + a) mod 65521) in
  let ab := fold_left step bs (1, 0) in
  snd ab * 65536 + fst ab.

(** A run of stored deflate blocks: header octet (BFINAL in bit 0,
    BTYPE = 00 in bits 1-2), LEN and its complement little-endian, then
    LEN literal octets. *)
Fixpoint stored_blocks (fuel : nat) (l : Buffer) : option (Buffer * Buffer) :=
  match fuel with
  | O => None
  | S fuel' =>
      match l with
      | h :: l0 :: l1 :: n0 :: n1 :: rest =>
          let len := byteZ l0 + 256 * byteZ l1 in
          let nlen := byteZ n0 + 256 * byteZ n1 in
          if ((byteZ h / 2) mod 4 =? 0) && (len + nlen =? 65535)
             && (len <=? buf_length rest) then
            let data := take (Z.to_nat len) rest in
            let rest' := drop (Z.to_nat len) rest in
            if Z.odd (byteZ h) then Some (data, rest')
            else match stored_blocks fuel' rest' with
                 | Some (d, r) => Some (data ++ d, r)
                 | None => None
                 end
          else None
      | _ => None
      end
  end.

Definition ref_inflateSync (buf : Buffer) : completion Buffer :=
  match buf with
  | cmf :: flg :: body =>
      if (byteZ cmf mod 16 =? 8) && (byteZ cmf / 16 <=? 7)
         && ((byteZ cmf * 256 + byteZ flg) mod 31 =? 0)
         && ((byteZ flg / 32) mod 2 =? 0) then
        match stored_blocks (S (length body)) body with
        | Some (out, [t0; t1; t2; t3]) =>
            if byteZ t0 * 2 ^ 24 + byteZ t1 * 2 ^ 16 + byteZ t2 * 2 ^ 8 + byteZ t3
               =? adler32 out
            then Normal out else Throw ZlibError
        | _ => Throw ZlibError
        end
      else Throw ZlibError
  | _ => Throw ZlibError
  end.

(** JSON reading. *)
Definition is_ws (b : byte) : bool :=
  match b with
  | x20 | x09 | x0a | x0d => true
  | _ => false
  end.

Fixpoint skip_ws (l : list byte) : list byte :=
  match l with
  | b :: r => if is_ws b then skip_ws r else l
  | [] => []
  end.

Fixpoint strip_prefix (pre l : list byte) : option (list byte) :=
  match pre, l with
  | [], _ => Some l
  | p :: pre', b :: l' => if Byte.eqb p b then strip_prefix pre' l' else None
  | _ :: _, [] => None
  end.

Fixpoint digits (acc : Z) (l : list byte) : Z * list byte :=
  match l with
  | b :: r => if in_range 48 57 b then digits (10 * acc + (byteZ b - 48)) r else (acc, l)
  | [] => (acc, [])
  end.

(** An integer literal; a fraction or an exponent is outside this
    reader. *)
Definition parse_number (l : list byte) : option (value * list byte) :=
  let neg := match l with x2d :: _ => true | _ => false end in
  let l1 := if neg then drop 1 l else l in
  match l1 with
  | d :: r =>
      if in_range 48 57 d then
        let '(m, rest) := if Byte.eqb d x30 then (0, r) else digits 0 l1 in
        match rest with
        | c :: _ =>
            if in_range 48 57 c || Byte.eqb c x2e || Byte.eqb c x65 || Byte.eqb c x45
            then None
            else Some (VNum (binary_normalize 53 1024 (if neg then - m else m) 0 neg), rest)
        | [] => Some (VNum (binary_normalize 53 1024 (if neg then - m else m) 0 neg), rest)
        end
      else None
  | [] => None
  end.

Definition unescape (e : byte) : option byte :=
  match e with
  | x22 => Some x22
  | x5c => Some x5c
  | x2f => Some x2f
  | x62 => Some x08
  | x66 => Some x0c
  | x6e => Some x0a
  | x72 => Some x0d
  | x74 => Some x09
  | _ => None
  end.

(** The rest of a string literal, after its opening quote. *)
Fixpoint parse_string (acc : list byte) (l : list byte) : option (string * list byte) :=
  match l with
  | [] => None
  | b :: r =>
      if Byte.eqb b x22 then Some (string_of_list_byte (rev acc), r)
      else if Byte.eqb b x5c then
        match r with
        | e :: r' =>
            match unescape e with
            | Some c => parse_string (c :: acc) r'
            | None => None
            end
        | [] => None
        end
      else if byteZ b <? 32 then None
      else parse_string (b :: acc) r
  end.

(** [obj[k] = v] on a freshly parsed object: a repeated key keeps its
    position and takes the later value. *)
Fixpoint obj_set (k : string) (v : value) (fields : list (string * value)) :
  list (string * value) :=
  match fields with
  | [] => [(k, v)]
  | (k', v') :: rest =>
      if String.eqb k k' then (k', v) :: rest else (k', v') :: obj_set k v rest
  end.

Fixpoint parse_value (fuel : nat) (l : list byte) : option (value * list byte) :=
  match fuel with
  | O => None
  | S fuel' =>
      let elements :=
        fix elements (n : nat) (acc : list value) (l : list byte) :=
          match n with
          | O => None
          | S n' =>
              match parse_value fuel' l with
              | Some (v, r1) =>
                  match skip_ws r1 with
                  | c :: r2 =>
                      if Byte.eqb c x2c then elements n' (v :: acc) r2
                      else if Byte.eqb c x5d then Some (VArr (rev (v :: acc)), r2)
                      else None
                  | [] => None
                  end
              | None => None
              end
          end in
      let members :=
        fix members (n : nat) (acc : list (string * value)) (l : list byte) :=
          match n with
          | O => None
          | S n' =>
              match skip_ws l with
              | q :: r0 =>
                  if Byte.eqb q x22 then
                    match parse_string [] r0 with
                    | Some (k, r1) =>
                        match skip_ws r1 with
                        | c :: r2 =>
                            if Byte.eqb c x3a then
                              match parse_value fuel' r2 with
                              | Some (v, r3) =>
                                  match skip_ws r3 with
                                  | d :: r4 =>
                                      if Byte.eqb d x2c then members n' (obj_set k v acc) r4
                                      else if Byte.eqb d x7d then Some (VObj (obj_set k v acc), r4)
                                      else None
                                  | [] => None
                                  end
                              | None => None
                              end
                            else None
                        | [] => None
                        end
                    | None => None
                    end
                  else None
              | [] => None
              end
          end in
      let l0 := skip_ws l in
      match l0 with
      | [] => None
      | c :: r =>
          if Byte.eqb c x22 then
            match parse_string [] r with
            | Some (s, r') => Some (VStr s, r')
            | None => None
            end
          else if Byte.eqb c x5b then
            match skip_ws r with
            | x5d :: r' => Some (VArr [], r')
            | _ => elements fuel' [] r
            end
          else if Byte.eqb c x7b then
            match skip_ws r with
            | x7d :: r' => Some (VObj [], r')
            | _ => members fuel' [] r
            end
          else
            match strip_prefix [x6e; x75; x6c; x6c] l0 with
            | Some r' => Some (VNull, r')
            | None =>
                match strip_prefix [x74; x72; x75; x65] l0 with
                | Some r' => Some (VBool true, r')
                | None =>
                    match strip_prefix [x66; x61; x6c; x73; x65] l0 with
                    | Some r' => Some (VBool false, r')
                    | None => parse_number l0
                    end
                end
            end
      end
  end.

Definition ref_JSON_parse (text : string) : completion value :=
  let l := list_byte_of_string text in
  match parse_value (S (length l)) l with
  | Some (v, rest) =>
      match skip_ws rest with
      | [] => Normal v
      | _ :: _ => Throw SyntaxError
      end
  | None => Throw SyntaxError
  end.

Definition ref_runtime : Runtime :=
  {| inflateSync := ref_inflateSync;
     JSON_parse := ref_JSON_parse;
     toString := ref_toString |}.

(** ** Observable calls *)

(** A device object of the camera driver. *)
Definition Device := nat.

(** The call sites of [Homey.app.debug]. *)
Inductive debug_msg :=
| DbgUpdateListener
| DbgUnableToConnect
| DbgReceivedPong
| DbgConnected
| DbgSocketError (message : string)
| DbgSocketErrorHost (message : string)
| DbgErrorConnecting (e : error)
| DbgCalledTerminate
| DbgCalledReconnect
| DbgCalledWaitForBootstrap
| DbgCallingWaitForBootstrap
| DbgSendPing
| DbgUnableToProcess
| DbgDecodeError (e : error)
| DbgUnknownPayload (payloadFormat : Z).

(** The topics of [this.homey.api.realtime]. *)
Inductive realtime_topic :=
| EVENT_SETTINGS_WEBSOCKET_STATUS
| EVENT_SETTINGS_WEBSOCKET_LASTPONG
| EVENT_SETTINGS_WEBSOCKET_LASTMESSAGE.

Inductive realtime_data :=
| RText (s : string)
| RError (e : error).

Inductive effect :=
| DebugLog (m : debug_msg)
| Realtime (topic : realtime_topic) (data : realtime_data)
| SocketCreated (h : nat)
| SocketSend (h : nat)
| SocketCloseRequested (h : nat)
| IntervalSet (t : nat)
| IntervalCleared (t : option nat)
| TimeoutSet
| ThenScheduled
| Forward (device : Device) (payload : value).

(** ** Computations that log and may throw *)

Definition M (A : Type) : Type := (list effect * completion A)%type.

Definition ret {A} (a : A) : M A := ([], Normal a).

Definition bind {A B} (m : M A) (k : A -> M B) : M B :=
  match m with
  | (t, Normal a) => (t ++ fst (k a), snd (k a))
  | (t, Throw e) => (t, Throw e)
  end.

Definition lift {A} (c : completion A) : M A := ([], c).

Definition emit (e : effect) : M unit := ([e], Normal tt).

Notation "x <- m ;; k" := (bind m (fun x => k))
  (at level 100, m at next level, right associativity).
Notation "m ;;; k" := (bind m (fun _ => k))
  (at level 100, right associativity).

(** Modelled from the spec: [UfvConstants.UPDATE_PACKET_HEADER_SIZE] is
    declared in the constants module, which is not among the sources;
    the wire format fixes every frame header at 8 bytes. *)
Definition UPDATE_PACKET_HEADER_SIZE : Z := 8.

Section Decoder.

Context (rt : Runtime).

(** Decode a frame, composed of a header and payload. *)
Definition decodeUpdateFrame (packet : Buffer) (packetType : Z) : M value :=
  frameType <- lift (readUInt8 packet 0) ;;
  if negb (packetType =? frameType) then ret VNull
  else
    payloadFormat <- lift (readUInt8 packet 1) ;;
    compressed <- lift (readUInt8 packet 2) ;;
    payload <- (if negb (compressed =? 0)
                then lift (inflateSync rt (slice_from packet UPDATE_PACKET_HEADER_SIZE))
                else ret (slice_from packet UPDATE_PACKET_HEADER_SIZE)) ;;
    if frameType =? 1 then
      if payloadFormat =? 1 then lift (JSON_parse rt (toString rt payload))
      else ret VNull
    else
      match payloadFormat with
      | 1 => lift (JSON_parse rt (toString rt payload))
      | 2 => ret (VStr (toString rt payload))
      | 3 => ret (VBuf payload)
      | _ => emit (DebugLog (DbgUnknownPayload payloadFormat)) ;;; ret VNull
      end.

(** The guarded block of [decodeUpdatePacket]: both header reads and
    the length validation. *)
Definition packet_dataOffset (packet : Buffer) : completion Z :=
  match readUInt32BE packet 4 with
  | Throw e => Throw e
  | Normal actionLength =>
      let dataOffset := actionLength + UPDATE_PACKET_HEADER_SIZE in
      match readUInt32BE packet (dataOffset + 4) with
      | Throw e => Throw e
      | Normal payloadLength =>
          if negb (buf_length packet
                   =? dataOffset + UPDATE_PACKET_HEADER_SIZE + payloadLength)
          then Throw (Error "Packet length doesn't match header information.")
          else Normal dataOffset
      end
  end.

(** Process an update data packet and return the action and payload. *)
Definition decodeUpdatePacket (packet : Buffer) : M value :=
  match packet_dataOffset packet with
  | Throw error =>
      emit (DebugLog (DbgDecodeError error)) ;;; ret VNull
  | Normal dataOffset =>
      actionFrame <- decodeUpdateFrame (slice packet 0 dataOffset) 1 ;;
      payloadFrame <- decodeUpdateFrame (slice_from packet dataOffset) 2 ;;
      if negb (truthy actionFrame) || negb (truthy payloadFrame) then ret VNull
      else ret (VObj [("action"%string, actionFrame); ("payload"%string, payloadFrame)])
  end.

(** ** The packet router

    The body of the [message] listener that [configureUpdatesListener]
    installs, after the packet has been decoded. *)
Definition routeUpdatePacket (getDeviceById : value -> option Device)
  (updatePacket : value) : M unit :=
  action <- lift (get_prop updatePacket "action") ;;
  action_action <- lift (get_prop action "action") ;;
  uninteresting <-
    (if strict_ne_string action_action "update" then ret true
     else
       action' <- lift (get_prop updatePacket "action") ;;
       modelKey <- lift (get_prop action' "modelKey") ;;
       ret (strict_ne_string modelKey "camera")) ;;
  if uninteresting : bool then ret tt
  else
    payload <- lift (get_prop updatePacket "payload") ;;
    stats <- lift (get_prop payload "stats") ;;
    if truthy stats then ret tt
    else
      action'' <- lift (get_prop updatePacket "action") ;;
      id <- lift (get_prop action'' "id") ;;
      match getDeviceById id with
      | None => ret tt
      | Some device => emit (Forward device payload)
      end.

(** The [message] listener itself. *)
Definition onUpdateMessage (getDeviceById : value -> option Device)
  (event : Buffer) : M unit :=
  updatePacket <- decodeUpdatePacket event ;;
  if negb (truthy updatePacket) then emit (DebugLog DbgUnableToProcess)
  else routeUpdatePacket getDeviceById updatePacket.

End Decoder.

(** ** The connection object and the event loop *)

(** What a field holding an object can be: [delete]d or never set,
    [null], or a reference to an object. *)
Inductive ref :=
| RUndefined
| RNull
| RObj (h : nat).

Definition ref_truthy (r : ref) : bool :=
  match r with
  | RObj _ => true
  | _ => false
  end.

(** The listeners this program registers on a socket. *)
Inductive listener :=
| OnPong
| OnMessageStamp
| OnOpen
| OnClose
| OnError
| OnMessageUpdate.

(** What a socket emits. *)
Inductive socket_event :=
| SPong (now : string)
| SMessage (now : string) (data : Buffer)
| SOpen
| SClose
| SError (message : string).

(** The fields of the [ProtectWebSocket] instance, the resources it
    holds in the event loop (sockets with their listeners, running
    interval timers, scheduled [waitForBootstrap] callbacks), the
    collaborators it reads, and the trace of its observable calls. *)
Record world := {
  _eventListener : ref;
  _eventListenerConfigured : bool;
  _pingPong : option nat;
  sockets : gmap nat (list listener);
  intervals : gset nat;
  fresh : nat;
  timeouts : nat;
  microtasks : nat;
  lastUpdateId : option string;
  constructor_error : option error;
  getDeviceById : value -> option Device;
  trace : list effect
}.

Definition set_eventListener (r : ref) (w : world) : world :=
  {| _eventListener := r;
     _eventListenerConfigured := _eventListenerConfigured w;
     _pingPong := _pingPong w; sockets := sockets w; intervals := intervals w;
     fresh := fresh w; timeouts := timeouts w; microtasks := microtasks w;
     lastUpdateId := lastUpdateId w; constructor_error := constructor_error w;
     getDeviceById := getDeviceById w; trace := trace w |}.

Definition set_eventListenerConfigured (b : bool) (w : world) : world :=
  {| _eventListener := _eventListener w;
     _eventListenerConfigured := b;
     _pingPong := _pingPong w; sockets := sockets w; intervals := intervals w;
     fresh := fresh w; timeouts := timeouts w; microtasks := microtasks w;
     lastUpdateId := lastUpdateId w; constructor_error := constructor_error w;
     getDeviceById := getDeviceById w; trace := trace w |}.

Definition set_pingPong (t : option nat) (w : world) : world :=
  {| _eventListener := _eventListener w;
     _eventListenerConfigured := _eventListenerConfigured w;
     _pingPong := t; sockets := sockets w; intervals := intervals w;
     fresh := fresh w; timeouts := timeouts w; microtasks := microtasks w;
     lastUpdateId := lastUpdateId w; constructor_error := constructor_error w;
     getDeviceById := getDeviceById w; trace := trace w |}.

Definition set_sockets (m : gmap nat (list listener)) (w : world) : world :=
  {| _eventListener := _eventListener w;
     _eventListenerConfigured := _eventListenerConfigured w;
     _pingPong := _pingPong w; sockets := m; intervals := intervals w;
     fresh := fresh w; timeouts := timeouts w; microtasks := microtasks w;
     lastUpdateId := lastUpdateId w; constructor_error := constructor_error w;
     getDeviceById := getDeviceById w; trace := trace w |}.

Definition set_intervals (i : gset nat) (w : world) : world :=
  {| _eventListener := _eventListener w;
     _eventListenerConfigured := _eventListenerConfigured w;
     _pingPong := _pingPong w; sockets := sockets w; intervals := i;
     fresh := fresh w; timeouts := timeouts w; microtasks := microtasks w;
     lastUpdateId := lastUpdateId w; constructor_error := constructor_error w;
     getDeviceById := getDeviceById w; trace := trace w |}.

Definition set_fresh (n : nat) (w : world) : world :=
  {| _eventListener := _eventListener w;
     _eventListenerConfigured := _eventListenerConfigured w;
     _pingPong := _pingPong w; sockets := sockets w; intervals := intervals w;
     fresh := n; timeouts := timeouts w; microtasks := microtasks w;
     lastUpdateId := lastUpdateId w; constructor_error := constructor_error w;
     getDeviceById := getDeviceById w; trace := trace w |}.

Definition set_timeouts (n : nat) (w : world) : world :=
  {| _eventListener := _eventListener w;
     _eventListenerConfigured := _eventListenerConfigured w;
     _pingPong := _pingPong w; sockets := sockets w; intervals := intervals w;
     fresh := fresh w; timeouts := n; microtasks := microtasks w;
     lastUpdateId := lastUpdateId w; constructor_error := constructor_error w;
     getDeviceById := getDeviceById w; trace := trace w |}.

Definition set_microtasks (n : nat) (w : world) : world :=
  {| _eventListener := _eventListener w;
     _eventListenerConfigured := _eventListenerConfigured w;
     _pingPong := _pingPong w; sockets := sockets w; intervals := intervals w;
     fresh := fresh w; timeouts := timeouts w; microtasks := n;
     lastUpdateId := lastUpdateId w; constructor_error := constructor_error w;
     getDeviceById := getDeviceById w; trace := trace w |}.

Definition set_lastUpdateId (id : option string) (w : world) : world :=
  {| _eventListener := _eventListener w;
     _eventListenerConfigured := _eventListenerConfigured w;
     _pingPong := _pingPong w; sockets := sockets w; intervals := intervals w;
     fresh := fresh w; timeouts := timeouts w; microtasks := microtasks w;
     lastUpdateId := id; constructor_error := constructor_error w;
     getDeviceById := getDeviceById w; trace := trace w |}.

Definition set_constructor_error (e : option error) (w : world) : world :=
  {| _eventListener := _eventListener w;
     _eventListenerConfigured := _eventListenerConfigured w;
     _pingPong := _pingPong w; sockets := sockets w; intervals := intervals w;
     fresh := fresh w; timeouts := timeouts w; microtasks := microtasks w;
     lastUpdateId := lastUpdateId w; constructor_error := e;
     getDeviceById := getDeviceById w; trace := trace w |}.

Definition set_getDeviceById (f : value -> option Device) (w : world) : world :=
  {| _eventListener := _eventListener w;
     _eventListenerConfigured := _eventListenerConfigured w;
     _pingPong := _pingPong w; sockets := sockets w; intervals := intervals w;
     fresh := fresh w; timeouts := timeouts w; microtasks := microtasks w;
     lastUpdateId := lastUpdateId w; constructor_error := constructor_error w;
     getDeviceById := f; trace := trace w |}.

Definition record (es : list effect) (w : world) : world :=
  {| _eventListener := _eventListener w;
     _eventListenerConfigured := _eventListenerConfigured w;
     _pingPong := _pingPong w; sockets := sockets w; intervals := intervals w;
     fresh := fresh w; timeouts := timeouts w; microtasks := microtasks w;
     lastUpdateId := lastUpdateId w; constructor_error := constructor_error w;
     getDeviceById := getDeviceById w; trace := trace w ++ es |}.

(** Methods: state transformers that may throw. *)
Definition JS (A : Type) : Type := world -> world * completion A.

Definition jret {A} (a : A) : JS A := fun w => (w, Normal a).

Definition jbind {A B} (m : JS A) (k : A -> JS B) : JS B :=
  fun w =>
    match m w with
    | (w', Normal a) => k a w'
    | (w', Throw e) => (w', Throw e)
    end.

Definition jthrow {A} (e : error) : JS A := fun w => (w, Throw e).

Definition jread {A} (f : world -> A) : JS A := fun w => (w, Normal (f w)).

Definition jwrite (f : world -> world) : JS unit := fun w => (f w, Normal tt).

Definition jlog (e : effect) : JS unit := jwrite (record [e]).

(** [try { body } catch (error) { handler }] *)
Definition jtry {A} (body : JS A) (handler : error -> JS A) : JS A :=
  fun w =>
    match body w with
    | (w', Normal a) => (w', Normal a)
    | (w', Throw e) => handler e w'
    end.

(** Run a computation of the decoder inside a method. *)
Definition jrun {A} (m : M A) : JS A := fun w => (record (fst m) w, snd m).

Notation "x <~ m ;; k" := (jbind m (fun x => k))
  (at level 100, m at next level, right associativity).
Notation "m ;;~ k" := (jbind m (fun _ => k))
  (at level 100, right associativity).

(** [new WebSocket(url, options)]: the constructor throws, or [new]
    yields the freshly made object. *)
Definition new_WebSocket : JS ref :=
  fun w =>
    match constructor_error w with
    | Some e => (w, Throw e)
    | None =>
        let h := fresh w in
        (record [SocketCreated h]
           (set_sockets (<[h := []]> (sockets w)) (set_fresh (S h) w)),
         Normal (RObj h))
    end.

(** [target.on(name, listener)] *)
Definition on (target : ref) (l : listener) : JS unit :=
  match target with
  | RObj h => jwrite (fun w => set_sockets (alter (fun ls => ls ++ [l]) h (sockets w)) w)
  | _ => jthrow TypeError
  end.

(** [setInterval(() => this.sendPingPongMessage(), 15000)] *)
Definition setInterval : JS nat :=
  fun w =>
    let t := fresh w in
    (record [IntervalSet t] (set_intervals ({[t]} ∪ intervals w) (set_fresh (S t) w)),
     Normal t).

(** [clearInterval(handle)] *)
Definition clearInterval (handle : option nat) : JS unit :=
  jwrite (fun w =>
    record [IntervalCleared handle]
      (match handle with
       | Some t => set_intervals (intervals w ∖ {[t]}) w
       | None => w
       end)).

Section Lifecycle.

Context (rt : Runtime).

(** The guarded block of [launchUpdatesListener].  [Some b] is an early
    [return b] of the method; [None] falls through to its end. *)
Definition launch_guarded : JS (option bool) :=
  jlog (Realtime EVENT_SETTINGS_WEBSOCKET_STATUS (RText "Connecting")) ;;~
  _ws <~ new_WebSocket ;;
  if negb (ref_truthy _ws) then
    jlog (DebugLog DbgUnableToConnect) ;;~
    jwrite (set_eventListener RNull) ;;~
    jwrite (set_eventListenerConfigured false) ;;~
    jret (Some false)
  else
    jwrite (set_eventListener _ws) ;;~
    t <~ setInterval ;;
    jwrite (set_pingPong (Some t)) ;;~
    (target <~ jread _eventListener ;; on target OnPong) ;;~
    (target <~ jread _eventListener ;; on target OnMessageStamp) ;;~
    (target <~ jread _eventListener ;; on target OnOpen) ;;~
    (target <~ jread _eventListener ;; on target OnClose) ;;~
    (target <~ jread _eventListener ;; on target OnError) ;;~
    jret None.

(** Connect to the realtime update events API. *)
Definition launchUpdatesListener : JS bool :=
  listener <~ jread _eventListener ;;
  if ref_truthy listener then jret true
  else
    jlog (DebugLog DbgUpdateListener) ;;~
    early <~ jtry launch_guarded
               (fun error =>
                  jlog (DebugLog (DbgErrorConnecting error)) ;;~
                  jlog (Realtime EVENT_SETTINGS_WEBSOCKET_STATUS (RError error)) ;;~
                  jret None) ;;
    match early with
    | Some b => jret b
    | None => jret true
    end.

(** The executor of the promise runs at once; the promise it returns
    is resolved. *)
Definition disconnectEventListener : JS unit :=
  listener <~ jread _eventListener ;;
  match listener with
  | RObj h =>
      jlog (DebugLog DbgCalledTerminate) ;;~
      jlog (SocketCloseRequested h)
  | _ => jret tt
  end ;;~
  jwrite (set_eventListenerConfigured false).

(** [.then(...)] on the resolved promise queues its callback, a call
    of [waitForBootstrap]. *)
Definition reconnectUpdatesListener : JS unit :=
  jlog (DebugLog DbgCalledReconnect) ;;~
  disconnectEventListener ;;~
  jwrite (fun w => record [ThenScheduled] (set_microtasks (S (microtasks w)) w)).

Definition sendPingPongMessage : JS unit :=
  listener <~ jread _eventListener ;;
  match listener with
  | RNull => jret tt
  | RUndefined => jthrow TypeError
  | RObj h =>
      jlog (SocketSend h) ;;~
      jlog (DebugLog DbgSendPing)
  end.

(** Configure the listener to trigger events on accessories. *)
Definition configureUpdatesListener : JS bool :=
  listener <~ jread _eventListener ;;
  configured <~ jread _eventListenerConfigured ;;
  if negb (ref_truthy listener) || configured then jret true
  else
    on listener OnMessageUpdate ;;~
    jwrite (set_eventListenerConfigured true) ;;~
    jret true.

Definition waitForBootstrap : JS unit :=
  cursor <~ jread lastUpdateId ;;
  match cursor with
  | Some _ =>
      jlog (DebugLog DbgCalledWaitForBootstrap) ;;~
      launchUpdatesListener ;;~
      configureUpdatesListener ;;~
      jret tt
  | None =>
      jlog (DebugLog DbgCallingWaitForBootstrap) ;;~
      jwrite (fun w => record [TimeoutSet] (set_timeouts (S (timeouts w)) w))
  end.

(** The listeners' bodies. *)
Definition run_listener (l : listener) (ev : socket_event) : JS unit :=
  match l, ev with
  | OnPong, SPong now =>
      jlog (Realtime EVENT_SETTINGS_WEBSOCKET_LASTPONG (RText now)) ;;~
      jlog (DebugLog DbgReceivedPong)
  | OnMessageStamp, SMessage now _ =>
      jlog (Realtime EVENT_SETTINGS_WEBSOCKET_LASTMESSAGE (RText now))
  | OnOpen, SOpen =>
      jlog (DebugLog DbgConnected) ;;~
      jlog (Realtime EVENT_SETTINGS_WEBSOCKET_STATUS (RText "Connected"))
  | OnClose, SClose =>
      jwrite (set_eventListener RUndefined) ;;~
      jwrite (set_eventListenerConfigured false) ;;~
      (handle <~ jread _pingPong ;; clearInterval handle) ;;~
      jlog (Realtime EVENT_SETTINGS_WEBSOCKET_STATUS (RText "Disconnected")) ;;~
      reconnectUpdatesListener
  | OnError, SError message =>
      jlog (DebugLog (DbgSocketError message)) ;;~
      (if negb (String.eqb message
                  "WebSocket was closed before the connection was established")
       then jlog (DebugLog (DbgSocketErrorHost message))
       else jret tt) ;;~
      jlog (Realtime EVENT_SETTINGS_WEBSOCKET_STATUS (RText message))
  | OnMessageUpdate, SMessage _ data =>
      registry <~ jread getDeviceById ;;
      jrun (onUpdateMessage rt registry data)
  | _, _ => jret tt
  end.

(** [emitter.emit]: the listeners run in the order they were added; one
    that throws ends the emission. *)
Fixpoint emit_to (ls : list listener) (ev : socket_event) : JS unit :=
  match ls with
  | [] => jret tt
  | l :: ls' => run_listener l ev ;;~ emit_to ls' ev
  end.

(** What the event loop can run next: a change in a collaborator, a call
    from the application, an event of a socket, a tick of an interval
    timer, a due timeout, a queued promise callback. *)
Inductive input :=
| Bootstrap (cursor : option string)
| ConstructorOutcome (e : option error)
| Registry (f : value -> option Device)
| CallLaunchUpdatesListener
| CallConfigureUpdatesListener
| CallWaitForBootstrap
| CallDisconnectEventListener
| CallReconnectUpdatesListener
| FromSocket (h : nat) (ev : socket_event)
| IntervalTick (t : nat)
| TimeoutFires
| MicrotaskRuns.

Definition enabled (w : world) (i : input) : bool :=
  match i with
  | FromSocket h _ => bool_decide (is_Some (sockets w !! h))
  | IntervalTick t => bool_decide (t ∈ intervals w)
  | TimeoutFires => negb (Nat.eqb (timeouts w) 0)
  | MicrotaskRuns => negb (Nat.eqb (microtasks w) 0)
  | _ => true
  end.

(** A socket that has emitted [close] emits nothing more. *)
Definition step (i : input) : JS unit :=
  match i with
  | Bootstrap cursor => jwrite (set_lastUpdateId cursor)
  | ConstructorOutcome e => jwrite (set_constructor_error e)
  | Registry f => jwrite (set_getDeviceById f)
  | CallLaunchUpdatesListener => launchUpdatesListener ;;~ jret tt
  | CallConfigureUpdatesListener => configureUpdatesListener ;;~ jret tt
  | CallWaitForBootstrap => waitForBootstrap
  | CallDisconnectEventListener => disconnectEventListener
  | CallReconnectUpdatesListener => reconnectUpdatesListener
  | FromSocket h ev =>
      ls <~ jread (fun w => default [] (sockets w !! h)) ;;
      match ev with
      | SClose => jwrite (fun w => set_sockets (delete h (sockets w)) w)
      | _ => jret tt
      end ;;~
      emit_to ls ev
  | IntervalTick _ => sendPingPongMessage
  | TimeoutFires =>
      jwrite (fun w => set_timeouts (pred (timeouts w)) w) ;;~ waitForBootstrap
  | MicrotaskRuns =>
      jwrite (fun w => set_microtasks (pred (microtasks w)) w) ;;~ waitForBootstrap
  end.

(** A run of the event loop.  An input that is not enabled is skipped;
    after a step that ends in an uncaught exception the loop goes on
    from the world as the exception left it. *)
Fixpoint run (inputs : list input) (w : world) : world :=
  match inputs with
  | [] => w
  | i :: rest => if enabled w i then run rest (fst (step i w)) else run rest w
  end.

(** Nothing is left that would make this object act on its own. *)
Definition quiescent (w : world) : bool :=
  bool_decide (sockets w = ∅) && bool_decide (intervals w = ∅)
  && Nat.eqb (timeouts w) 0 && Nat.eqb (microtasks w) 0.

End Lifecycle.

(** The constructor: [_eventListener] and [_pingPong] are [null]. *)
Definition new_ProtectWebSocket (cursor : option string)
  (ctor : option error) (registry : value -> option Device) : world :=
  {| _eventListener := RNull;
     _eventListenerConfigured := false;
     _pingPong := None; sockets := ∅; intervals := ∅;
     fresh := 0; timeouts := 0; microtasks := 0;
     lastUpdateId := cursor; constructor_error := ctor;
     getDeviceById := registry; trace := [] |}.

(** The states the event loop can bring the object to, from its
    construction. *)
Definition reachable (rt : Runtime) (w : world) : Prop :=
  exists cursor ctor registry inputs,
    w = run rt inputs (new_ProtectWebSocket cursor ctor registry).

(** ** The wire format, as documented *)

(** The big-endian 32-bit unsigned integer at an offset, when the
    buffer has those four bytes. *)
Definition uint32_at (buf : Buffer) (offset : nat) : option Z :=
  match buf !! offset, buf !! (offset + 1)%nat,
        buf !! (offset + 2)%nat, buf !! (offset + 3)%nat with
  | Some b0, Some b1, Some b2, Some b3 =>
      Some (byteZ b0 * 16777216 + byteZ b1 * 65536 + byteZ b2 * 256 + byteZ b3)
  | _, _, _, _ => None
  end.

(** [buffer.length == dataOffset + 8 + payloadLength], false as well
    when a header read has no bytes to read. *)
Definition header_lengths_agree (packet : Buffer) : bool :=
  match uint32_at packet 4 with
  | None => false
  | Some actionLength =>
      let dataOffset := 8 + actionLength in
      match uint32_at packet (Z.to_nat (dataOffset + 4)) with
      | None => false
      | Some payloadLength => buf_length packet =? dataOffset + 8 + payloadLength
      end
  end.

Definition byte_of_Z (n : Z) : byte :=
  default x00 (Byte.of_N (Z.to_N (n mod 256))).

Definition uint32BE (n : Z) : Buffer :=
  [byte_of_Z (n / 16777216); byte_of_Z (n / 65536); byte_of_Z (n / 256); byte_of_Z n].

(** What a sub-frame puts on the wire: format tag, compression flag,
    and the stored octets (the body, deflated when the flag is set). *)
Record wire_frame := {
  frame_format : Z;
  frame_compressed : bool;
  frame_stored : Buffer
}.

(** Modelled from the spec: the repository only decodes; the sender's
    side is the documented layout of a frame, an 8-byte header (frame
    type, payload format, compression flag, a reserved byte, the
    big-endian length of what follows) and then the stored octets. *)
Definition encodeUpdateFrame (frameType : Z) (f : wire_frame) : Buffer :=
  [byte_of_Z frameType; byte_of_Z (frame_format f);
   if frame_compressed f then x01 else x00; x00]
  ++ uint32BE (buf_length (frame_stored f)) ++ frame_stored f.

(** Modelled from the spec: a packet is the action frame (type 1)
    followed by the payload frame (type 2). *)
Definition encodeUpdatePacket (action payload : wire_frame) : Buffer :=
  encodeUpdateFrame 1 action ++ encodeUpdateFrame 2 payload.

(** The three payload variants. *)
Inductive payload_value :=
| JsonPayload (v : value)
| TextPayload (s : string)
| BinaryPayload (bs : Buffer).

Definition format_tag (p : payload_value) : Z :=
  match p with
  | JsonPayload _ => 1
  | TextPayload _ => 2
  | BinaryPayload _ => 3
  end.

Definition delivered (p : payload_value) : value :=
  match p with
  | JsonPayload v => v
  | TextPayload s => VStr s
  | BinaryPayload bs => VBuf bs
  end.

(** [body] is a serialisation of [p] that the runtime reads back. *)
Definition serialises (rt : Runtime) (body : Buffer) (p : payload_value) : Prop :=
  match p with
  | JsonPayload v => JSON_parse rt (toString rt body) = Normal v
  | TextPayload s => toString rt body = s
  | BinaryPayload bs => body = bs
  end.

(** [stored] holds [body]: as it is, or deflated so that the runtime
    inflates it back. *)
Definition stores (rt : Runtime) (compressed : bool) (stored body : Buffer) : Prop :=
  if compressed then inflateSync rt stored = Normal body else stored = body.

(** The packet [decodeUpdatePacket] returns on success. *)
Definition UpdatePacket (action payload : value) : value :=
  VObj [("action"%string, action); ("payload"%string, payload)].

(** The body of a frame, when it is stored raw or inflates. *)
Definition body_available (rt : Runtime) (frame : Buffer) (flag : byte) : Prop :=
  byteZ flag = 0 \/ exists body, inflateSync rt (drop 8 frame) = Normal body.

(** The dispatch of [decodeUpdateFrame] on the format tag of a payload
    frame. *)
Definition payload_dispatch (rt : Runtime) (fmt : Z) (payload : Buffer) : M value :=
  match fmt with
  | 1 => lift (JSON_parse rt (toString rt payload))
  | 2 => ret (VStr (toString rt payload))
  | 3 => ret (VBuf payload)
  | _ => emit (DebugLog (DbgUnknownPayload fmt)) ;;; ret VNull
  end.

(** [v.k] on a value that is neither [undefined] nor [null]. *)
Definition prop (v : value) (k : string) : value :=
  match get_prop v k with
  | Normal x => x
  | Throw _ => VUndefined
  end.

(** Two well-sized packets with a binary, empty payload frame: the
    action frame of the first is raw with no text in it, that of the
    second is flagged as compressed with no stream in it. *)
Definition unparseable_packet : Buffer :=
  [x01; x01; x00; x00; x00; x00; x00; x00] ++ [x02; x03; x00; x00; x00; x00; x00; x00].

Definition uninflatable_packet : Buffer :=
  [x01; x01; x01; x00; x00; x00; x00; x00] ++ [x02; x03; x00; x00; x00; x00; x00; x00].

(** The world right after a connection has been set up: the new
    socket with its five listeners, the new heartbeat timer. *)
Definition launched (w : world) : world :=
  let h := fresh w in
  let t := S h in
  {| _eventListener := RObj h;
     _eventListenerConfigured := _eventListenerConfigured w;
     _pingPong := Some t;
     sockets := <[h := [OnPong; OnMessageStamp; OnOpen; OnClose; OnError]]> (sockets w);
     intervals := {[t]} ∪ intervals w;
     fresh := S t; timeouts := timeouts w; microtasks := microtasks w;
     lastUpdateId := lastUpdateId w; constructor_error := constructor_error w;
     getDeviceById := getDeviceById w;
     trace := trace w ++
       [DebugLog DbgUpdateListener;
        Realtime EVENT_SETTINGS_WEBSOCKET_STATUS (RText "Connecting");
        SocketCreated h; IntervalSet t] |}.

(** What a failed construction leaves in the trace. *)
Definition construction_failure (e : error) : list effect :=
  [DebugLog DbgUpdateListener;
   Realtime EVENT_SETTINGS_WEBSOCKET_STATUS (RText "Connecting");
   DebugLog (DbgErrorConnecting e);
   Realtime EVENT_SETTINGS_WEBSOCKET_STATUS (RError e)].

(** What the close listener leaves in the trace. *)
Definition teardown (handle : option nat) : list effect :=
  [IntervalCleared handle;
   Realtime EVENT_SETTINGS_WEBSOCKET_STATUS (RText "Disconnected");
   DebugLog DbgCalledReconnect;
   ThenScheduled].

(** ** Invariant of the lifecycle *)

(** A socket's listeners hold the close listener exactly once. *)
Definition closes_once (ls : list listener) : Prop :=
  exists pre post,
    ls = pre ++ OnClose :: post /\ (OnClose ∉ pre) /\ (OnClose ∉ post).

(** While a listener is held, it is the only socket and its heartbeat
    the only interval; otherwise there is neither. *)
Definition consistent (w : world) : Prop :=
  match _eventListener w with
  | RObj h =>
      exists ls t,
        sockets w = {[h := ls]} /\ closes_once ls /\
        _pingPong w = Some t /\ intervals w = {[t]} /\
        (h < fresh w)%nat /\ (t < fresh w)%nat
  | _ => sockets w = ∅ /\ intervals w = ∅
  end.

(** ** Sample data *)

Definition ascii_bytes (s : string) : Buffer := list_byte_of_string s.

(** An action frame's object for a camera update. *)
Definition camera_update : value :=
  VObj [("action"%string, VStr "update"); ("modelKey"%string, VStr "camera");
        ("id"%string, VStr "cam1"); ("newUpdateId"%string, VStr "x")].

(** A registry that knows one camera. *)
Definition one_camera (id : value) : option Device :=
  match id with
  | VStr s => if String.eqb s "cam1" then Some 7%nat else None
  | _ => None
  end.

(** The text of [{}], and a zlib stream that stores it in one block. *)
Definition empty_object_text : Buffer := [x7b; x7d].

Definition empty_object_stored : Buffer :=
  [x78; x01; x01; x02; x00; xfd; xff; x7b; x7d; x01; x75; x00; xf9].

(** A frame announcing a compressed body and carrying none. *)
Definition truncated_frame : Buffer := [x01; x02; x01; x00; x00; x00; x00; x00].

(** An object right after construction, the cursor there; and the same
    once [waitForBootstrap] has connected it. *)
Definition fresh_object (ctor : option error) : world :=
  new_ProtectWebSocket (Some "1"%string) ctor one_camera.

Definition connected_object : world :=
  run ref_runtime [CallWaitForBootstrap] (fresh_object None).

(** [w'] holds the same connection resources as [w]. *)
Definition same_connection (w w' : world) : Prop :=
  _eventListener w' = _eventListener w /\ sockets w' = sockets w /\
  _pingPong w' = _pingPong w /\ intervals w' = intervals w /\
  fresh w' = fresh w.

(** The world right after the close listener has run. *)
Definition closed (w : world) : world :=
  {| _eventListener := RUndefined;
     _eventListenerConfigured := false;
     _pingPong := _pingPong w;
     sockets := sockets w;
     intervals := match _pingPong w with
                  | Some t => intervals w ∖ {[t]}
                  | None => intervals w
                  end;
     fresh := fresh w; timeouts := timeouts w; microtasks := S (microtasks w);
     lastUpdateId := lastUpdateId w; constructor_error := constructor_error w;
     getDeviceById := getDeviceById w;
     trace := trace w ++ teardown (_pingPong w) |}.

(** A closed connection stays closed: its handle and its timer are
    older than every handle still to be made, the listener is another
    object, the timer does not run. *)
Definition retired (h t : nat) (w : world) : Prop :=
  (h < fresh w)%nat /\ (t < fresh w)%nat /\
  _eventListener w <> RObj h /\ t ∉ intervals w.

(** From [w] to [w'] the trace has grown, without a send on socket [h]. *)
Definition silent (h : nat) (w w' : world) : Prop :=
  exists es, trace w' = trace w ++ es /\ SocketSend h ∉ es.

Definition keeps (h t : nat) (w w' : world) : Prop :=
  retired h t w -> retired h t w' /\ silent h w w'.

(** What the decoder and the router can leave in the trace. *)
Definition decoder_effect (e : effect) : Prop :=
  match e with
  | DebugLog _ | Forward _ _ => True
  | _ => False
  end.

(** ** Further notions for the decoder and the router *)

(** An error that one of the runtime's two throwing codecs raised. *)
Definition codec_error (rt : Runtime) (e : error) : Prop :=
  (exists stream, inflateSync rt stream = Throw e) \/
  (exists text, JSON_parse rt text = Throw e).

(** The one diagnostic that [decodeUpdateFrame] writes. *)
Definition unknown_payload_log (e : effect) : Prop :=
  match e with
  | DebugLog (DbgUnknownPayload _) => True
  | _ => False
  end.

Definition debug_only (e : effect) : Prop :=
  match e with
  | DebugLog _ => True
  | _ => False
  end.

(** The forwarding calls in a trace. *)
Fixpoint forward_calls (es : list effect) : list (Device * value) :=
  match es with
  | [] => []
  | Forward device payload :: rest => (device, payload) :: forward_calls rest
  | _ :: rest => forward_calls rest
  end.

(** ** Further notions for the lifecycle *)

(** The listeners [launchUpdatesListener] registers, in its order. *)
Definition base_listeners : list listener :=
  [OnPong; OnMessageStamp; OnOpen; OnClose; OnError].

(** The held socket carries the base listeners and then router
    listeners only, at least one when the configured flag is set; with
    no socket held the flag is down. *)
Definition wired (w : world) : Prop :=
  match _eventListener w with
  | RObj h =>
      exists k, sockets w !! h = Some (base_listeners ++ replicate k OnMessageUpdate) /\
                (_eventListenerConfigured w = true -> (1 <= k)%nat)
  | _ => _eventListenerConfigured w = false
  end.

(** What the error listener writes for a message. *)
Definition error_report (message : string) : list effect :=
  DebugLog (DbgSocketError message)
  :: (if String.eqb message "WebSocket was closed before the connection was established"
      then [] else [DebugLog (DbgSocketErrorHost message)])
  ++ [Realtime EVENT_SETTINGS_WEBSOCKET_STATUS (RText message)].

(** What one round of the bootstrap poll writes. *)
Definition poll_round : list effect :=
  [DebugLog DbgCallingWaitForBootstrap; TimeoutSet].

(** The world right after [waitForBootstrap] has connected: the new
    socket with its base listeners and the router, the flag set. *)
Definition bootstrapped (w : world) : world :=
  let h := fresh w in
  let t := S h in
  {| _eventListener := RObj h;
     _eventListenerConfigured := true;
     _pingPong := Some t;
     sockets := <[h := base_listeners ++ [OnMessageUpdate]]> (sockets w);
     intervals := {[t]} ∪ intervals w;
     fresh := S t; timeouts := timeouts w; microtasks := microtasks w;
     lastUpdateId := lastUpdateId w; constructor_error := constructor_error w;
     getDeviceById := getDeviceById w;
     trace := trace w ++
       [DebugLog DbgCalledWaitForBootstrap;
        DebugLog DbgUpdateListener;
        Realtime EVENT_SETTINGS_WEBSOCKET_STATUS (RText "Connecting");
        SocketCreated h; IntervalSet t] |}.

(** ** The camera device

    The handlers of the [Camera] device that the driver reaches with a
    routed payload, and the provisioning of its capabilities.  The
    device's class and capability list are state; its calls to the
    platform are a trace.  A capability that holds a timestamp is
    [None] while nothing was stored ([getCapabilityValue] gives [null])
    and a number afterwards; the timestamps of the payload are
    numbers. *)

Inductive device_msg :=
| MsgChangedClass
| MsgCreatedCapability (capability : string)
| MsgRemovedCapability (capability : string)
| MsgOnMotionStart
| MsgOnMotionEnd
| MsgSetLastRingAt
| MsgSetLastMotionAt
| MsgNewMotion (time : spec_float)
| MsgMotionEnded (time : spec_float).

Inductive device_call :=
| DeviceDebug (m : device_msg)
| SetClass (cls : string)
| AddCapability (capability : string)
| RemoveCapability (capability : string)
| SetCapabilityValue (capability : string) (v : value)
| DoorbellRingingTrigger.

Record camera := {
  device_class : string;
  capabilities : gset string
}.

Definition D : Type := camera * list device_call.

(** [if (this.getClass() !== 'camera') { debug; this.setClass('camera') }] *)
Definition ensure_camera_class (s : D) : D :=
  if negb (String.eqb (device_class (fst s)) "camera") then
    ({| device_class := "camera"; capabilities := capabilities (fst s) |},
     snd s ++ [DeviceDebug MsgChangedClass; SetClass "camera"])
  else s.

(** [if (!this.hasCapability(c)) { this.addCapability(c); debug }] *)
Definition add_if_missing (c : string) (s : D) : D :=
  if negb (bool_decide (c ∈ capabilities (fst s))) then
    ({| device_class := device_class (fst s);
        capabilities := {[c]} ∪ capabilities (fst s) |},
     snd s ++ [AddCapability c; DeviceDebug (MsgCreatedCapability c)])
  else s.

(** [if (this.hasCapability(c)) { this.removeCapability(c); debug }] *)
Definition remove_if_present (c : string) (s : D) : D :=
  if bool_decide (c ∈ capabilities (fst s)) then
    ({| device_class := device_class (fst s);
        capabilities := capabilities (fst s) ∖ {[c]} |},
     snd s ++ [RemoveCapability c; DeviceDebug (MsgRemovedCapability c)])
  else s.

Definition _createMissingCapabilities (device : camera) : D :=
  let s := ensure_camera_class (device, []) in
  let s := add_if_missing "last_motion_score" s in
  let s := add_if_missing "last_motion_thumbnail" s in
  let s := add_if_missing "last_motion_heatmap" s in
  let s := remove_if_present "last_motion_datetime" s in
  let s := add_if_missing "last_motion_date" s in
  let s := add_if_missing "last_motion_time" s in
  let s := add_if_missing "camera_recording_mode" s in
  let s := add_if_missing "camera_microphone_status" s in
  let s := add_if_missing "camera_microphone_volume" s in
  let s := add_if_missing "camera_connection_status" s in
  add_if_missing "last_ring_at" s.

(** The capabilities the method provides. *)
Definition provided_capabilities : gset string :=
  {[ "last_motion_score"; "last_motion_thumbnail"; "last_motion_heatmap";
     "last_motion_date"; "last_motion_time"; "camera_recording_mode";
     "camera_microphone_status"; "camera_microphone_volume";
     "camera_connection_status"; "last_ring_at" ]}.

(** ToBoolean of a stored timestamp. *)
Definition stored_truthy (stored : option spec_float) : bool :=
  match stored with
  | Some x => truthy (VNum x)
  | None => false
  end.

(** [time > stored] on numbers. *)
Definition newer_than (time : spec_float) (stored : option spec_float) : bool :=
  match stored with
  | Some x => SFltb x time
  | None => false
  end.

Definition onMotionStart : list device_call :=
  [DeviceDebug MsgOnMotionStart; SetCapabilityValue "alarm_motion" (VBool true)].

Definition onMotionEnd : list device_call :=
  [DeviceDebug MsgOnMotionEnd; SetCapabilityValue "alarm_motion" (VBool false)].

Section CameraHandlers.

(** [Date.prototype.toLocaleDateString] and [toLocaleTimeString]. *)
Context (toLocaleDateString toLocaleTimeString : spec_float -> string).

(** [lastMotionAt] is what [getCapabilityValue('last_motion_at')]
    gave. *)
Definition onMotionDetected (lastMotionAt : option spec_float)
  (lastMotionTime : spec_float) (isMotionDetected : value) : list device_call :=
  if negb (stored_truthy lastMotionAt) then
    [DeviceDebug MsgSetLastMotionAt;
     SetCapabilityValue "last_motion_at" (VNum lastMotionTime)]
  else if truthy isMotionDetected && newer_than lastMotionTime lastMotionAt then
    [DeviceDebug (MsgNewMotion lastMotionTime);
     SetCapabilityValue "last_motion_at" (VNum lastMotionTime);
     SetCapabilityValue "last_motion_date" (VStr (toLocaleDateString lastMotionTime));
     SetCapabilityValue "last_motion_time" (VStr (toLocaleTimeString lastMotionTime))]
    ++ onMotionStart
  else if negb (truthy isMotionDetected) && newer_than lastMotionTime lastMotionAt then
    [DeviceDebug (MsgMotionEnded lastMotionTime)]
    ++ onMotionEnd
    ++ [SetCapabilityValue "last_motion_at" (VNum lastMotionTime)]
  else [].

End CameraHandlers.

(** [lastRingAt] is what [getCapabilityValue('last_ring_at')] gave;
    [debug] is [Homey.env.DEBUG]. *)
Definition onDoorbellRinging (debug : bool) (lastRingAt : option spec_float)
  (lastRing : spec_float) : list device_call :=
  if negb (stored_truthy lastRingAt) then
    (if debug then [DeviceDebug MsgSetLastRingAt] else [])
    ++ [SetCapabilityValue "last_ring_at" (VNum lastRing)]
  else if newer_than lastRing lastRingAt then [DoorbellRingingTrigger]
  else [].

(** ** More sample data *)

Definition json_string (s : string) : Buffer :=
  [x22] ++ list_byte_of_string s ++ [x22].

Definition json_member (key text : string) : Buffer :=
  json_string key ++ [x3a] ++ json_string text.

(** The JSON text of [camera_update]. *)
Definition camera_update_text : Buffer :=
  [x7b] ++ json_member "action" "update" ++ [x2c]
  ++ json_member "modelKey" "camera" ++ [x2c]
  ++ json_member "id" "cam1" ++ [x2c]
  ++ json_member "newUpdateId" "x" ++ [x7d].

(** A camera update with a text payload, on the wire. *)
Definition motion_packet : Buffer :=
  encodeUpdatePacket
    {| frame_format := 1; frame_compressed := false;
       frame_stored := camera_update_text |}
    {| frame_format := 2; frame_compressed := false;
       frame_stored := ascii_bytes "motion" |}.

(** An object that polls for the cursor. *)
Definition polling_object : world :=
  run ref_runtime [CallWaitForBootstrap] (new_ProtectWebSocket None None one_camera).

(** * Properties of the frame decoder *)

Section DecoderFacts.

Context (rt : Runtime).

Lemma bind_ret {A B} (a : A) (k : A -> M B) : bind (ret a) k = k a.
Proof. unfold bind, ret. destruct (k a); reflexivity. Qed.

Lemma bind_lift_Normal {A B} (a : A) (k : A -> M B) :
  bind (lift (Normal a)) k = k a.
Proof. apply bind_ret. Qed.

Lemma bind_lift_Throw {A B} (e : error) (k : A -> M B) :
  bind (lift (Throw e)) k = ([], Throw e).
Proof. reflexivity. Qed.

Lemma byteZ_range (b : byte) : 0 <= byteZ b < 256.
Proof.
  unfold byteZ. pose proof (Byte.to_N_bounded b) as Hb.
  lia.
Qed.

Lemma uint32_at_range (buf : Buffer) (offset : nat) (n : Z) :
  uint32_at buf offset = Some n -> 0 <= n < 4294967296.
Proof.
  unfold uint32_at.
  destruct (buf !! offset) as [b0|]; [|discriminate].
  destruct (buf !! (offset + 1)%nat) as [b1|]; [|discriminate].
  destruct (buf !! (offset + 2)%nat) as [b2|]; [|discriminate].
  destruct (buf !! (offset + 3)%nat) as [b3|]; [|discriminate].
  intros [= <-].
  pose proof (byteZ_range b0). pose proof (byteZ_range b1).
  pose proof (byteZ_range b2). pose proof (byteZ_range b3). lia.
Qed.

(** The two readers agree with the byte-wise reading of the buffer. *)
Lemma readUInt32BE_uint32_at (buf : Buffer) (offset : Z) :
  0 <= offset ->
  readUInt32BE buf offset =
  match uint32_at buf (Z.to_nat offset) with
  | Some n => Normal n
  | None => Throw RangeError
  end.
Proof.
  intros Hoff. unfold readUInt32BE, uint32_at, buf_length.
  replace (buf !! Z.to_nat offset) with (drop (Z.to_nat offset) buf !! 0%nat)
    by (rewrite lookup_drop; f_equal; lia).
  rewrite <- !lookup_drop.
  pose proof (length_drop buf (Z.to_nat offset)) as Hlen.
  destruct (0 <=? offset) eqn:H0; [|lia].
  destruct (offset + 4 <=? Z.of_nat (length buf)) eqn:H4;
    [apply Z.leb_le in H4 | apply Z.leb_gt in H4];
    destruct (drop (Z.to_nat offset) buf) as [|b0 [|b1 [|b2 [|b3 rest]]]];
    cbn [andb take lookup list_lookup length] in *;
    try reflexivity; lia.
Qed.

Lemma readUInt8_lookup (buf : Buffer) (offset : nat) :
  readUInt8 buf (Z.of_nat offset) =
  match buf !! offset with
  | Some b => Normal (byteZ b)
  | None => Throw RangeError
  end.
Proof.
  unfold readUInt8, buf_length. rewrite Nat2Z.id.
  destruct (buf !! offset) as [b|] eqn:Hb.
  - apply lookup_lt_Some in Hb.
    destruct (0 <=? Z.of_nat offset) eqn:H0; [|lia].
    destruct (Z.of_nat offset + 1 <=? Z.of_nat (length buf)) eqn:H1; [reflexivity|lia].
  - destruct ((0 <=? Z.of_nat offset) && (Z.of_nat offset + 1 <=? Z.of_nat (length buf)));
      reflexivity.
Qed.

Lemma readUInt8_at (buf : Buffer) (offset : nat) (z : Z) :
  z = Z.of_nat offset ->
  readUInt8 buf z =
  match buf !! offset with
  | Some b => Normal (byteZ b)
  | None => Throw RangeError
  end.
Proof. intros ->. apply readUInt8_lookup. Qed.

(** The guarded block yields an offset exactly for the buffers whose
    length matches their two headers. *)
Lemma packet_dataOffset_agree (packet : Buffer) :
  match packet_dataOffset packet with
  | Normal dataOffset =>
      header_lengths_agree packet = true /\
      exists actionLength, uint32_at packet 4 = Some actionLength /\
                           dataOffset = actionLength + 8
  | Throw _ => header_lengths_agree packet = false
  end.
Proof.
  unfold packet_dataOffset, header_lengths_agree, UPDATE_PACKET_HEADER_SIZE.
  rewrite (readUInt32BE_uint32_at packet 4) by lia.
  change (Z.to_nat 4) with 4%nat.
  destruct (uint32_at packet 4) as [al|] eqn:Hal; [|reflexivity].
  pose proof (uint32_at_range _ _ _ Hal) as Hr.
  rewrite (readUInt32BE_uint32_at packet (al + 8 + 4)) by lia.
  replace (8 + al + 4) with (al + 8 + 4) by lia.
  destruct (uint32_at packet (Z.to_nat (al + 8 + 4))) as [pl|]; [|reflexivity].
  replace (8 + al + 8 + pl) with (al + 8 + 8 + pl) by lia.
  destruct (buf_length packet =? al + 8 + 8 + pl); simpl.
  - split; [reflexivity|]. exists al. split; reflexivity.
  - reflexivity.
Qed.

(** C5. Every buffer whose length differs from [dataOffset + 8 +
    payloadLength], or that is too short for either header read, makes
    [decodeUpdatePacket] return [null]: the error raised inside the
    guarded block is caught and logged, nothing is thrown to the caller
    and no frame is decoded. *)
Theorem decodeUpdatePacket_length_mismatch (packet : Buffer) :
  header_lengths_agree packet = false ->
  exists e, decodeUpdatePacket rt packet
            = ([DebugLog (DbgDecodeError e)], Normal VNull).
Proof.
  intros Hbad. unfold decodeUpdatePacket.
  pose proof (packet_dataOffset_agree packet) as Hoff.
  destruct (packet_dataOffset packet) as [d|e].
  - destruct Hoff as [Hok _]. congruence.
  - exists e. reflexivity.
Qed.

Lemma slice_from_drop (buf : Buffer) (start : Z) :
  0 <= start -> slice_from buf start = drop (Z.to_nat start) buf.
Proof.
  intros Hs. unfold slice_from, slice, clamp_index, buf_length.
  destruct (start <? 0) eqn:H0; [apply Z.ltb_lt in H0; lia|].
  destruct (Z.of_nat (length buf) <? 0) eqn:H1; [apply Z.ltb_lt in H1; lia|].
  rewrite Z.min_id.
  destruct (Z.le_ge_cases start (Z.of_nat (length buf))) as [Hle|Hge].
  - rewrite Z.min_l by lia. apply take_ge. rewrite length_drop. lia.
  - rewrite Z.min_r by lia. rewrite Nat2Z.id.
    rewrite !drop_ge by lia. apply take_nil.
Qed.

Lemma slice_0_take (buf : Buffer) (stop : Z) :
  0 <= stop -> slice buf 0 stop = take (Z.to_nat stop) buf.
Proof.
  intros Hs. unfold slice, clamp_index, buf_length.
  destruct (stop <? 0) eqn:H0; [apply Z.ltb_lt in H0; lia|].
  change (0 <? 0) with false. cbv iota.
  rewrite (Z.min_l 0) by lia. change (Z.to_nat 0) with 0%nat. rewrite drop_0.
  rewrite Z.sub_0_r.
  destruct (Z.le_ge_cases stop (Z.of_nat (length buf))) as [Hle|Hge].
  - rewrite Z.min_l by lia. reflexivity.
  - rewrite Z.min_r by lia. rewrite Nat2Z.id.
    rewrite !take_ge by lia. reflexivity.
Qed.

(** [decodeUpdateFrame] once its three header bytes have been read. *)
Lemma decodeUpdateFrame_header (frame : Buffer) (packetType : Z) (t0 fmt flag : byte) :
  frame !! 0%nat = Some t0 -> frame !! 1%nat = Some fmt -> frame !! 2%nat = Some flag ->
  decodeUpdateFrame rt frame packetType =
  if negb (packetType =? byteZ t0) then ret VNull
  else
    (payload <- (if negb (byteZ flag =? 0)
                 then lift (inflateSync rt (drop 8 frame))
                 else ret (drop 8 frame)) ;;
     if byteZ t0 =? 1 then
       if byteZ fmt =? 1 then lift (JSON_parse rt (toString rt payload))
       else ret VNull
     else
       match byteZ fmt with
       | 1 => lift (JSON_parse rt (toString rt payload))
       | 2 => ret (VStr (toString rt payload))
       | 3 => ret (VBuf payload)
       | _ => emit (DebugLog (DbgUnknownPayload (byteZ fmt))) ;;; ret VNull
       end).
Proof.
  intros H0 H1 H2. unfold decodeUpdateFrame, UPDATE_PACKET_HEADER_SIZE.
  rewrite (slice_from_drop frame 8) by lia.
  change (Z.to_nat 8) with 8%nat.
  rewrite (readUInt8_at frame 0 0 eq_refl), (readUInt8_at frame 1 1 eq_refl),
    (readUInt8_at frame 2 2 eq_refl), H0, H1, H2.
  rewrite bind_lift_Normal.
  destruct (negb (packetType =? byteZ t0)); [reflexivity|].
  rewrite !bind_lift_Normal. reflexivity.
Qed.

Lemma decodeUpdateFrame_type_mismatch (frame : Buffer) (t0 : byte) (expected : Z) :
  frame !! 0%nat = Some t0 -> byteZ t0 <> expected ->
  decodeUpdateFrame rt frame expected = ([], Normal VNull).
Proof.
  intros H0 Hne. unfold decodeUpdateFrame.
  rewrite (readUInt8_at frame 0 0 eq_refl), H0, bind_lift_Normal.
  destruct (expected =? byteZ t0) eqn:He; [apply Z.eqb_eq in He; congruence|].
  reflexivity.
Qed.

Lemma payload_dispatch_unknown (fmt : Z) (payload : Buffer) :
  fmt <> 1 -> fmt <> 2 -> fmt <> 3 ->
  payload_dispatch rt fmt payload = ([DebugLog (DbgUnknownPayload fmt)], Normal VNull).
Proof.
  intros H1 H2 H3. unfold payload_dispatch.
  destruct fmt as [|[[|[]|]|[|[]|]|]|]; try reflexivity; congruence.
Qed.

Lemma payload_dispatch_log (fmt n : Z) (payload : Buffer) :
  DebugLog (DbgUnknownPayload n) ∈ fst (payload_dispatch rt fmt payload) ->
  fmt = n /\ n <> 1 /\ n <> 2 /\ n <> 3.
Proof.
  destruct (decide (fmt = 1)) as [->|H1].
  { unfold payload_dispatch, lift. cbn [fst]. intros Hin. inversion Hin. }
  destruct (decide (fmt = 2)) as [->|H2].
  { unfold payload_dispatch, ret. cbn [fst]. intros Hin. inversion Hin. }
  destruct (decide (fmt = 3)) as [->|H3].
  { unfold payload_dispatch, ret. cbn [fst]. intros Hin. inversion Hin. }
  rewrite payload_dispatch_unknown by assumption. cbn [fst].
  intros Hin. apply list_elem_of_singleton in Hin. injection Hin as <-.
  repeat split; assumption.
Qed.

Lemma decodeUpdateFrame_log (frame : Buffer) (expected n : Z) :
  DebugLog (DbgUnknownPayload n) ∈ fst (decodeUpdateFrame rt frame expected) ->
  expected <> 1 /\ n <> 1 /\ n <> 2 /\ n <> 3 /\
  exists t0 fmt, frame !! 0%nat = Some t0 /\ byteZ t0 = expected /\
                 frame !! 1%nat = Some fmt /\ byteZ fmt = n.
Proof.
  destruct (frame !! 0%nat) as [t0|] eqn:H0.
  2: { unfold decodeUpdateFrame.
       rewrite (readUInt8_at frame 0 0 eq_refl), H0, bind_lift_Throw.
       intros Hin. inversion Hin. }
  destruct (decide (byteZ t0 = expected)) as [He|He].
  2: { rewrite (decodeUpdateFrame_type_mismatch frame t0 expected H0 He).
       intros Hin. inversion Hin. }
  destruct (frame !! 1%nat) as [fmt|] eqn:H1.
  2: { unfold decodeUpdateFrame.
       rewrite (readUInt8_at frame 0 0 eq_refl), H0, bind_lift_Normal.
       rewrite <- He, Z.eqb_refl. cbn [negb].
       rewrite (readUInt8_at frame 1 1 eq_refl), H1, bind_lift_Throw.
       intros Hin. inversion Hin. }
  destruct (frame !! 2%nat) as [flag|] eqn:H2.
  2: { unfold decodeUpdateFrame.
       rewrite (readUInt8_at frame 0 0 eq_refl), H0, bind_lift_Normal.
       rewrite <- He, Z.eqb_refl. cbn [negb].
       rewrite (readUInt8_at frame 1 1 eq_refl), H1, bind_lift_Normal.
       rewrite (readUInt8_at frame 2 2 eq_refl), H2, bind_lift_Throw.
       intros Hin. inversion Hin. }
  rewrite (decodeUpdateFrame_header frame expected t0 fmt flag H0 H1 H2).
  rewrite <- He, Z.eqb_refl. cbn [negb].
  fold (payload_dispatch rt (byteZ fmt)).
  assert (Htail : forall payload : Buffer,
    DebugLog (DbgUnknownPayload n)
      ∈ fst (if byteZ t0 =? 1
             then if byteZ fmt =? 1
                  then lift (JSON_parse rt (toString rt payload)) else ret VNull
             else payload_dispatch rt (byteZ fmt) payload) ->
    byteZ t0 <> 1 /\ n <> 1 /\ n <> 2 /\ n <> 3 /\
    exists t0' fmt', Some t0 = Some t0' /\ byteZ t0' = byteZ t0 /\
                     Some fmt = Some fmt' /\ byteZ fmt' = n).
  { intros payload. destruct (byteZ t0 =? 1) eqn:Ht.
    - destruct (byteZ fmt =? 1); intros Hin; inversion Hin.
    - intros Hin. apply payload_dispatch_log in Hin as (Hf & N1 & N2 & N3).
      apply Z.eqb_neq in Ht. repeat split; try assumption.
      exists t0, fmt. repeat split; assumption. }
  destruct (negb (byteZ flag =? 0)).
  - destruct (inflateSync rt (drop 8 frame)) as [body|e].
    + rewrite bind_lift_Normal. apply Htail.
    + rewrite bind_lift_Throw. intros Hin. inversion Hin.
  - rewrite bind_ret. apply Htail.
Qed.

(** C8, as the code has it. A frame whose type tag differs from the
    expected type decodes to [null].  With the three header bytes there
    and the body stored raw or inflating without error: an action frame
    with a format tag other than 1 decodes to [null] without a log line,
    and a payload frame with a format tag outside 1, 2, 3 decodes to
    [null] after logging the unknown-payload diagnostic.  That
    diagnostic is logged nowhere else: whenever it appears, the expected
    type is not 1, the type tag matched, and the format tag it reports
    lies outside 1, 2, 3. *)
Theorem decodeUpdateFrame_rejections (frame : Buffer) :
  (forall t0 expected,
     frame !! 0%nat = Some t0 -> byteZ t0 <> expected ->
     decodeUpdateFrame rt frame expected = ([], Normal VNull)) /\
  (forall fmt flag,
     frame !! 0%nat = Some x01 -> frame !! 1%nat = Some fmt ->
     frame !! 2%nat = Some flag -> body_available rt frame flag ->
     byteZ fmt <> 1 ->
     decodeUpdateFrame rt frame 1 = ([], Normal VNull)) /\
  (forall fmt flag,
     frame !! 0%nat = Some x02 -> frame !! 1%nat = Some fmt ->
     frame !! 2%nat = Some flag -> body_available rt frame flag ->
     byteZ fmt <> 1 -> byteZ fmt <> 2 -> byteZ fmt <> 3 ->
     decodeUpdateFrame rt frame 2
     = ([DebugLog (DbgUnknownPayload (byteZ fmt))], Normal VNull)) /\
  (forall expected n,
     DebugLog (DbgUnknownPayload n) ∈ fst (decodeUpdateFrame rt frame expected) ->
     expected <> 1 /\ n <> 1 /\ n <> 2 /\ n <> 3 /\
     exists t0 fmt, frame !! 0%nat = Some t0 /\ byteZ t0 = expected /\
                    frame !! 1%nat = Some fmt /\ byteZ fmt = n).
Proof.
  split; [|split; [|split]].
  - intros t0 expected. apply decodeUpdateFrame_type_mismatch.
  - intros fmt flag H0 H1 H2 Hbody Hfmt.
    rewrite (decodeUpdateFrame_header frame 1 x01 fmt flag) by assumption.
    change (byteZ x01) with 1. cbn [Z.eqb Pos.eqb negb].
    apply Z.eqb_neq in Hfmt.
    destruct Hbody as [Hraw|[body Hinf]].
    + rewrite Hraw. cbn [Z.eqb negb]. rewrite bind_ret, Hfmt. reflexivity.
    + rewrite Hinf. destruct (negb (byteZ flag =? 0));
        rewrite ?bind_ret, ?bind_lift_Normal, Hfmt; reflexivity.
  - intros fmt flag H0 H1 H2 Hbody Hf1 Hf2 Hf3.
    rewrite (decodeUpdateFrame_header frame 2 x02 fmt flag) by assumption.
    change (byteZ x02) with 2. cbn [Z.eqb Pos.eqb negb].
    fold (payload_dispatch rt (byteZ fmt)).
    destruct Hbody as [Hraw|[body Hinf]].
    + rewrite Hraw. cbn [Z.eqb negb]. rewrite bind_ret.
      apply payload_dispatch_unknown; assumption.
    + rewrite Hinf.
      destruct (negb (byteZ flag =? 0)); rewrite ?bind_ret, ?bind_lift_Normal;
        apply payload_dispatch_unknown; assumption.
  - intros expected n. apply decodeUpdateFrame_log.
Qed.

(** ** Encoding, then decoding *)

Lemma byteZ_byte_of_Z (n : Z) : byteZ (byte_of_Z n) = n mod 256.
Proof.
  unfold byteZ, byte_of_Z.
  pose proof (Z.mod_pos_bound n 256 ltac:(lia)) as Hm.
  destruct (Byte.of_N (Z.to_N (n mod 256))) as [b|] eqn:E.
  - apply Byte.to_of_N in E. change (default x00 (Some b)) with b. rewrite E. lia.
  - apply Byte.of_N_None_iff in E. lia.
Qed.

Lemma uint32_at_drop (buf : Buffer) (offset : nat) :
  uint32_at buf offset = uint32_at (drop offset buf) 0.
Proof.
  unfold uint32_at. cbn [Nat.add]. rewrite !lookup_drop, Nat.add_0_r.
  reflexivity.
Qed.

Lemma uint32_at_uint32BE (pre post : Buffer) (n : Z) (offset : nat) :
  offset = length pre -> 0 <= n < 4294967296 ->
  uint32_at (pre ++ uint32BE n ++ post) offset = Some n.
Proof.
  intros -> Hn. rewrite uint32_at_drop, drop_app_length.
  unfold uint32_at, uint32BE. cbn [app lookup list_lookup Nat.add].
  rewrite !byteZ_byte_of_Z. f_equal.
  change 16777216 with (256 * 256 * 256). change 65536 with (256 * 256).
  rewrite <- !Z.div_div by lia.
  Z.to_euclidean_division_equations. lia.
Qed.

Lemma encodeUpdateFrame_length (t : Z) (f : wire_frame) :
  length (encodeUpdateFrame t f) = (8 + length (frame_stored f))%nat.
Proof. reflexivity. Qed.

(** The guarded block finds the payload frame right after the action
    frame. *)
Lemma packet_dataOffset_encode (fa fp : wire_frame) :
  buf_length (frame_stored fa) < 4294967296 ->
  buf_length (frame_stored fp) < 4294967296 ->
  packet_dataOffset (encodeUpdatePacket fa fp)
  = Normal (buf_length (encodeUpdateFrame 1 fa)).
Proof.
  intros Ha Hp. unfold buf_length in *.
  pose proof (packet_dataOffset_agree (encodeUpdatePacket fa fp)) as Hagree.
  assert (H4 : uint32_at (encodeUpdatePacket fa fp) 4
               = Some (Z.of_nat (length (frame_stored fa)))).
  { unfold encodeUpdatePacket, encodeUpdateFrame. rewrite <- !app_assoc.
    unfold buf_length. apply uint32_at_uint32BE; [reflexivity|lia]. }
  assert (Hok : header_lengths_agree (encodeUpdatePacket fa fp) = true).
  { unfold header_lengths_agree. rewrite H4.
    replace (Z.to_nat (8 + Z.of_nat (length (frame_stored fa)) + 4))
      with (length (encodeUpdateFrame 1 fa
                    ++ [byte_of_Z 2; byte_of_Z (frame_format fp);
                        if frame_compressed fp then x01 else x00; x00]))
      by (rewrite length_app, encodeUpdateFrame_length; cbn [length]; lia).
    unfold encodeUpdatePacket at 1. unfold encodeUpdateFrame at 2.
    rewrite (app_assoc (encodeUpdateFrame 1 fa)). unfold buf_length at 1.
    rewrite uint32_at_uint32BE by (reflexivity || lia).
    unfold buf_length, encodeUpdatePacket.
    rewrite length_app, !encodeUpdateFrame_length. apply Z.eqb_eq. lia. }
  destruct (packet_dataOffset (encodeUpdatePacket fa fp)) as [d|e].
  - destruct Hagree as [_ (al & Hal & ->)]. rewrite H4 in Hal.
    injection Hal as <-. rewrite encodeUpdateFrame_length. f_equal. lia.
  - congruence.
Qed.

(** Decoding a frame that was laid out by [encodeUpdateFrame]. *)
Lemma decodeUpdateFrame_encode (t : Z) (f : wire_frame) (body : Buffer) :
  0 <= t < 256 -> 0 <= frame_format f < 256 ->
  stores rt (frame_compressed f) (frame_stored f) body ->
  decodeUpdateFrame rt (encodeUpdateFrame t f) t =
  if t =? 1 then
    if frame_format f =? 1 then lift (JSON_parse rt (toString rt body))
    else ret VNull
  else payload_dispatch rt (frame_format f) body.
Proof.
  intros Ht Hf Hst.
  rewrite (decodeUpdateFrame_header _ t (byte_of_Z t) (byte_of_Z (frame_format f))
             (if frame_compressed f then x01 else x00)) by reflexivity.
  rewrite !byteZ_byte_of_Z, !Z.mod_small by lia.
  rewrite Z.eqb_refl. cbn [negb].
  change (drop 8 (encodeUpdateFrame t f)) with (frame_stored f).
  fold (payload_dispatch rt (frame_format f)).
  unfold stores in Hst.
  destruct (frame_compressed f).
  - change (byteZ x01 =? 0) with false. cbn [negb].
    rewrite Hst, bind_lift_Normal. reflexivity.
  - change (byteZ x00 =? 0) with true. cbn [negb].
    rewrite Hst, bind_ret. reflexivity.
Qed.

Lemma payload_dispatch_serialised (body : Buffer) (p : payload_value) :
  serialises rt body p ->
  payload_dispatch rt (format_tag p) body = ([], Normal (delivered p)).
Proof.
  destruct p as [v|s|bs]; cbn [serialises format_tag delivered payload_dispatch].
  - intros ->. reflexivity.
  - intros <-. reflexivity.
  - intros ->. reflexivity.
Qed.

(** What [decodeUpdatePacket] does with an encoded packet whose frames
    the runtime reads back: the check on the two decoded frames decides. *)
Lemma decodeUpdatePacket_encode (a : value) (p : payload_value)
  (ca cp : bool) (body_a stored_a body_p stored_p : Buffer) :
  serialises rt body_a (JsonPayload a) -> serialises rt body_p p ->
  stores rt ca stored_a body_a -> stores rt cp stored_p body_p ->
  buf_length stored_a < 4294967296 -> buf_length stored_p < 4294967296 ->
  decodeUpdatePacket rt
    (encodeUpdatePacket
       {| frame_format := 1; frame_compressed := ca; frame_stored := stored_a |}
       {| frame_format := format_tag p; frame_compressed := cp;
          frame_stored := stored_p |})
  = ([], Normal (if truthy a && truthy (delivered p)
                 then UpdatePacket a (delivered p) else VNull)).
Proof.
  intros Hsa Hsp Hca Hcp Hla Hlp. unfold decodeUpdatePacket.
  rewrite packet_dataOffset_encode by assumption.
  rewrite slice_0_take, slice_from_drop by (unfold buf_length; lia).
  unfold buf_length, encodeUpdatePacket. rewrite Nat2Z.id.
  rewrite take_app_length, drop_app_length.
  rewrite (decodeUpdateFrame_encode 1 _ body_a) by (cbn; (lia || assumption)).
  assert (Hfmt : 0 <= format_tag p < 256) by (destruct p; cbn; lia).
  rewrite (decodeUpdateFrame_encode 2 _ body_p) by (cbn; (lia || assumption)).
  cbn [Z.eqb Pos.eqb frame_format].
  cbn [serialises] in Hsa. rewrite Hsa, bind_lift_Normal.
  rewrite (payload_dispatch_serialised body_p p Hsp).
  change (@pair (list effect) (completion value) [] (Normal (delivered p)))
    with (ret (delivered p)).
  rewrite bind_ret.
  destruct (truthy a), (truthy (delivered p)); reflexivity.
Qed.

(** C4, as the code has it. For an action value and a payload value of
    any of the three variants that are both truthy, each body stored raw
    or deflated with a length that fits 32 bits, decoding the packet
    laid out with the documented headers yields the original action and
    payload values and logs nothing.  The codecs are the runtime's: the
    bodies are serialisations that it reads back. *)
Theorem decodeUpdatePacket_roundtrip (a : value) (p : payload_value)
  (ca cp : bool) (body_a stored_a body_p stored_p : Buffer) :
  serialises rt body_a (JsonPayload a) -> serialises rt body_p p ->
  stores rt ca stored_a body_a -> stores rt cp stored_p body_p ->
  buf_length stored_a < 4294967296 -> buf_length stored_p < 4294967296 ->
  truthy a = true -> truthy (delivered p) = true ->
  decodeUpdatePacket rt
    (encodeUpdatePacket
       {| frame_format := 1; frame_compressed := ca; frame_stored := stored_a |}
       {| frame_format := format_tag p; frame_compressed := cp;
          frame_stored := stored_p |})
  = ([], Normal (UpdatePacket a (delivered p))).
Proof.
  intros Hsa Hsp Hca Hcp Hla Hlp Ha Hp.
  rewrite (decodeUpdatePacket_encode a p ca cp body_a stored_a body_p stored_p)
    by assumption.
  rewrite Ha, Hp. reflexivity.
Qed.

(** ** Failures past the guarded block *)

(** C1, at two packets that pass the length validation. When the
    runtime rejects the empty text, decoding [unparseable_packet] throws
    that error instead of returning [null]; when it rejects the empty
    stream, decoding [uninflatable_packet] does.  The error leaves
    [decodeUpdatePacket] and the [message] listener that called it. *)
Theorem decodeUpdatePacket_throws (registry : value -> option Device) (e : error) :
  (JSON_parse rt (toString rt []) = Throw e ->
   decodeUpdatePacket rt unparseable_packet = ([], Throw e) /\
   onUpdateMessage rt registry unparseable_packet = ([], Throw e)) /\
  (inflateSync rt [] = Throw e ->
   decodeUpdatePacket rt uninflatable_packet = ([], Throw e) /\
   onUpdateMessage rt registry uninflatable_packet = ([], Throw e)).
Proof.
  split; intros Hfail.
  - assert (Hd : decodeUpdatePacket rt unparseable_packet = ([], Throw e)).
    { unfold decodeUpdatePacket.
      change (packet_dataOffset unparseable_packet) with (@Normal Z 8).
      cbv beta iota.
      change (slice unparseable_packet 0 8)
        with [x01; x01; x00; x00; x00; x00; x00; x00].
      rewrite (decodeUpdateFrame_header _ 1 x01 x01 x00) by reflexivity.
      change (drop 8 [x01; x01; x00; x00; x00; x00; x00; x00]) with (@nil byte).
      change (byteZ x01) with 1. change (byteZ x00) with 0.
      cbn [Z.eqb Pos.eqb negb]. rewrite bind_ret, Hfail. reflexivity. }
    split; [exact Hd|]. unfold onUpdateMessage. rewrite Hd. reflexivity.
  - assert (Hd : decodeUpdatePacket rt uninflatable_packet = ([], Throw e)).
    { unfold decodeUpdatePacket.
      change (packet_dataOffset uninflatable_packet) with (@Normal Z 8).
      cbv beta iota.
      change (slice uninflatable_packet 0 8)
        with [x01; x01; x01; x00; x00; x00; x00; x00].
      rewrite (decodeUpdateFrame_header _ 1 x01 x01 x01) by reflexivity.
      change (drop 8 [x01; x01; x01; x00; x00; x00; x00; x00]) with (@nil byte).
      change (byteZ x01) with 1.
      cbn [Z.eqb Pos.eqb negb]. rewrite Hfail. reflexivity. }
    split; [exact Hd|]. unfold onUpdateMessage. rewrite Hd. reflexivity.
Qed.

(** ** The router *)

Lemma get_prop_truthy (v : value) (k : string) :
  truthy v = true -> get_prop v k = Normal (prop v k).
Proof. destruct v; cbn; intros H; try discriminate; reflexivity. Qed.

Lemma strict_ne_string_false (v : value) (lit : string) :
  strict_ne_string v lit = false <-> v = VStr lit.
Proof.
  destruct v; cbn; split; intros H; try discriminate.
  - apply negb_false_iff, String.eqb_eq in H. congruence.
  - injection H as ->. rewrite String.eqb_refl. reflexivity.
Qed.

(** The router on a decoded packet, as one expression. *)
Lemma routeUpdatePacket_decoded (registry : value -> option Device) (a p : value) :
  truthy a = true -> truthy p = true ->
  routeUpdatePacket registry (UpdatePacket a p) =
  (if strict_ne_string (prop a "action") "update"
      || strict_ne_string (prop a "modelKey") "camera"
   then []
   else if truthy (prop p "stats") then []
        else match registry (prop a "id") with
             | Some device => [Forward device p]
             | None => []
             end,
   Normal tt).
Proof.
  intros Ha Hp. unfold routeUpdatePacket, UpdatePacket.
  change (get_prop (VObj [("action"%string, a); ("payload"%string, p)]) "action")
    with (Normal a).
  change (get_prop (VObj [("action"%string, a); ("payload"%string, p)]) "payload")
    with (Normal p).
  pose proof (fun k => get_prop_truthy a k Ha) as Ga.
  pose proof (fun k => get_prop_truthy p k Hp) as Gp.
  repeat (progress rewrite ?Ga, ?Gp, ?bind_lift_Normal, ?bind_ret).
  destruct (strict_ne_string (prop a "action") "update").
  - rewrite bind_ret. reflexivity.
  - repeat (progress rewrite ?Ga, ?Gp, ?bind_lift_Normal, ?bind_ret). cbn [orb].
    destruct (strict_ne_string (prop a "modelKey") "camera"); [reflexivity|].
    repeat (progress rewrite ?Ga, ?Gp, ?bind_lift_Normal, ?bind_ret).
    destruct (truthy (prop p "stats")); [reflexivity|].
    repeat (progress rewrite ?Ga, ?Gp, ?bind_lift_Normal, ?bind_ret).
    destruct (registry (prop a "id")); reflexivity.
Qed.

(** C2, as the code has it. For a decoded packet whose action is
    [update] on a [camera], the router discards on the truthiness of
    what [payload.stats] reads: a truthy value means no forwarding call;
    a falsy one, whether the key is absent or present with [0], [false],
    [null] or the empty string, lets the packet through to the registry
    lookup. *)
Theorem stats_check_is_truthiness (registry : value -> option Device) (a p : value) :
  truthy a = true -> truthy p = true ->
  prop a "action" = VStr "update" -> prop a "modelKey" = VStr "camera" ->
  (truthy (prop p "stats") = true ->
   routeUpdatePacket registry (UpdatePacket a p) = ([], Normal tt)) /\
  (truthy (prop p "stats") = false ->
   routeUpdatePacket registry (UpdatePacket a p) =
   (match registry (prop a "id") with
    | Some device => [Forward device p]
    | None => []
    end, Normal tt)).
Proof.
  intros Ha Hp Hact Hkey.
  rewrite routeUpdatePacket_decoded by assumption.
  rewrite Hact, Hkey. cbn [strict_ne_string String.eqb Ascii.eqb Bool.eqb negb orb].
  split; intros ->; reflexivity.
Qed.

(** C6, as the code has it. For a decoded packet: when the action is
    [update], the model key is [camera], [payload.stats] is absent or
    falsy and the registry resolves [action.id], the payload is
    forwarded to that device exactly once; when the action or the model
    key differs, or [payload.stats] is truthy, or the registry has no
    device, there is no forwarding call. *)
Theorem router_filter (registry : value -> option Device) (a p : value) :
  truthy a = true -> truthy p = true ->
  (forall device,
     prop a "action" = VStr "update" -> prop a "modelKey" = VStr "camera" ->
     truthy (prop p "stats") = false -> registry (prop a "id") = Some device ->
     routeUpdatePacket registry (UpdatePacket a p)
     = ([Forward device p], Normal tt)) /\
  (prop a "action" <> VStr "update" \/ prop a "modelKey" <> VStr "camera" \/
   truthy (prop p "stats") = true \/ registry (prop a "id") = None ->
   routeUpdatePacket registry (UpdatePacket a p) = ([], Normal tt)).
Proof.
  intros Ha Hp. rewrite routeUpdatePacket_decoded by assumption. split.
  - intros device Hact Hkey Hstats Hreg.
    rewrite Hact, Hkey, Hstats, Hreg. reflexivity.
  - intros Hsome.
    destruct (strict_ne_string (prop a "action") "update") eqn:E1; [reflexivity|].
    destruct (strict_ne_string (prop a "modelKey") "camera") eqn:E2; [reflexivity|].
    apply strict_ne_string_false in E1, E2. cbn [orb].
    destruct (truthy (prop p "stats")) eqn:E3; [reflexivity|].
    destruct (registry (prop a "id")) eqn:E4; [|reflexivity].
    destruct Hsome as [H|[H|[H|H]]]; congruence.
Qed.

End DecoderFacts.

(** * Properties of the connection lifecycle *)

Ltac js :=
  cbv [launchUpdatesListener launch_guarded jtry jbind jread jret jlog jwrite
       jthrow jrun new_WebSocket setInterval on clearInterval
       disconnectEventListener reconnectUpdatesListener
       configureUpdatesListener waitForBootstrap sendPingPongMessage
       set_eventListener set_eventListenerConfigured set_pingPong set_sockets
       set_intervals set_fresh set_timeouts set_microtasks set_lastUpdateId
       set_constructor_error set_getDeviceById record ref_truthy negb orb
       launched construction_failure teardown closed
       _eventListener _eventListenerConfigured _pingPong sockets intervals
       fresh timeouts microtasks lastUpdateId constructor_error getDeviceById
       trace fst snd].

(** [launchUpdatesListener], case by case. *)
Lemma launchUpdatesListener_cases (w : world) :
  launchUpdatesListener w =
  match _eventListener w with
  | RObj _ => (w, Normal true)
  | _ =>
      match constructor_error w with
      | Some e => (record (construction_failure e) w, Normal true)
      | None => (launched w, Normal true)
      end
  end.
Proof.
  destruct w as [l c p so iv f tmo mt lu ce gd tr]. js.
  destruct l, ce; cbv beta iota; try reflexivity;
    rewrite <- ?app_assoc, ?alter_insert_eq; reflexivity.
Qed.

Lemma launchUpdatesListener_normal (w : world) :
  snd (launchUpdatesListener w) = Normal true.
Proof.
  rewrite launchUpdatesListener_cases.
  destruct (_eventListener w); [| |reflexivity];
    destruct (constructor_error w); reflexivity.
Qed.

(** C10. [launchUpdatesListener] returns [true] from every state, also
    when the construction of the socket throws and the error is caught;
    and the test that leads to [return false] never succeeds, since a
    construction that completes yields an object. *)
Theorem launchUpdatesListener_returns_true (w : world) :
  snd (launchUpdatesListener w) = Normal true /\
  match snd (new_WebSocket w) with
  | Normal _ws => negb (ref_truthy _ws) = false
  | Throw _ => True
  end.
Proof.
  split.
  - apply launchUpdatesListener_normal.
  - unfold new_WebSocket. destruct (constructor_error w); [exact I|reflexivity].
Qed.

(** ** The invariant *)

Lemma same_connection_refl (w : world) : same_connection w w.
Proof. repeat split. Qed.

Lemma same_connection_trans (w1 w2 w3 : world) :
  same_connection w1 w2 -> same_connection w2 w3 -> same_connection w1 w3.
Proof.
  intros (A1 & A2 & A3 & A4 & A5) (B1 & B2 & B3 & B4 & B5).
  repeat split; congruence.
Qed.

Lemma consistent_same_connection (w w' : world) :
  same_connection w w' -> consistent w -> consistent w'.
Proof.
  intros (A1 & A2 & A3 & A4 & A5). unfold consistent.
  rewrite A1, A2, A3, A4, A5. trivial.
Qed.

Lemma closes_once_initial :
  closes_once [OnPong; OnMessageStamp; OnOpen; OnClose; OnError].
Proof.
  exists [OnPong; OnMessageStamp; OnOpen], [OnError].
  split; [reflexivity|]. split; intros H.
  - repeat (apply elem_of_cons in H as [H|H]; [discriminate|]). inversion H.
  - repeat (apply elem_of_cons in H as [H|H]; [discriminate|]). inversion H.
Qed.

Lemma closes_once_snoc (ls : list listener) :
  closes_once ls -> closes_once (ls ++ [OnMessageUpdate]).
Proof.
  intros (pre & post & -> & Hpre & Hpost).
  exists pre, (post ++ [OnMessageUpdate]). rewrite <- app_assoc.
  split; [reflexivity|]. split; [assumption|].
  intros H. apply elem_of_app in H as [H|H]; [contradiction|].
  apply list_elem_of_singleton in H. discriminate.
Qed.

Lemma consistent_new (cursor : option string) (ctor : option error)
  (registry : value -> option Device) :
  consistent (new_ProtectWebSocket cursor ctor registry).
Proof. split; reflexivity. Qed.

Lemma consistent_launched (w : world) :
  ref_truthy (_eventListener w) = false -> consistent w -> consistent (launched w).
Proof.
  unfold consistent. destruct (_eventListener w); try discriminate;
    intros _ [Hs Hi]; cbn [launched _eventListener sockets _pingPong intervals fresh];
    rewrite Hs, Hi;
    (exists [OnPong; OnMessageStamp; OnOpen; OnClose; OnError], (S (fresh w));
     split; [apply insert_empty|]; split; [apply closes_once_initial|];
     split; [reflexivity|]; split; [apply (right_id_L ∅ (∪))|]; lia).
Qed.

Lemma launchUpdatesListener_consistent (w : world) :
  consistent w -> consistent (fst (launchUpdatesListener w)).
Proof.
  intros Hc. rewrite launchUpdatesListener_cases.
  destruct (_eventListener w) eqn:El; [| |exact Hc];
    (destruct (constructor_error w);
     [ eapply consistent_same_connection; [|exact Hc]; repeat split
     | apply consistent_launched; [rewrite El; reflexivity|exact Hc] ]).
Qed.

Lemma configureUpdatesListener_consistent (w : world) :
  consistent w -> consistent (fst (configureUpdatesListener w)).
Proof.
  destruct w as [l c p so iv f tmo mt lu ce gd tr]. unfold consistent. js.
  destruct l; cbv beta iota; try (intros H; exact H).
  destruct c; cbv beta iota; [intros H; exact H|].
  intros (ls & t & -> & Hls & Hp & Hi & Hf).
  exists (ls ++ [OnMessageUpdate]), t.
  split; [rewrite alter_singleton_eq; reflexivity|].
  split; [apply closes_once_snoc, Hls|].
  auto.
Qed.

Lemma disconnectEventListener_same (w : world) :
  same_connection w (fst (disconnectEventListener w)).
Proof.
  destruct w as [l c p so iv f tmo mt lu ce gd tr]. js.
  destruct l; repeat split.
Qed.

Lemma reconnectUpdatesListener_same (w : world) :
  same_connection w (fst (reconnectUpdatesListener w)).
Proof.
  destruct w as [l c p so iv f tmo mt lu ce gd tr]. js.
  destruct l; repeat split.
Qed.

Lemma sendPingPongMessage_same (w : world) :
  same_connection w (fst (sendPingPongMessage w)).
Proof.
  destruct w as [l c p so iv f tmo mt lu ce gd tr]. js.
  destruct l; repeat split.
Qed.

Lemma waitForBootstrap_consistent (w : world) :
  consistent w -> consistent (fst (waitForBootstrap w)).
Proof.
  intros Hc. unfold waitForBootstrap, jbind, jread.
  destruct (lastUpdateId w) as [cursor|].
  - unfold jlog at 1, jwrite at 1.
    assert (Hc1 : consistent (record [DebugLog DbgCalledWaitForBootstrap] w)).
    { eapply consistent_same_connection; [|exact Hc]. repeat split. }
    pose proof (launchUpdatesListener_consistent _ Hc1) as Hc2.
    pose proof (launchUpdatesListener_normal
                  (record [DebugLog DbgCalledWaitForBootstrap] w)) as Hr.
    destruct (launchUpdatesListener (record [DebugLog DbgCalledWaitForBootstrap] w))
      as [w2 r]. cbn [fst snd] in *. subst r.
    pose proof (configureUpdatesListener_consistent _ Hc2) as Hc3.
    destruct (configureUpdatesListener w2) as [w3 [b|e]]; exact Hc3.
  - eapply consistent_same_connection; [|exact Hc]. repeat split.
Qed.

(** ** Effects of the decoder *)

Lemma Forall_bind {A B} (P : effect -> Prop) (m : M A) (k : A -> M B) :
  Forall P (fst m) -> (forall a, Forall P (fst (k a))) ->
  Forall P (fst (bind m k)).
Proof.
  intros Hm Hk. destruct m as [t [a|e]]; cbn [bind fst] in *.
  - apply Forall_app. split; [exact Hm|apply Hk].
  - exact Hm.
Qed.

Ltac decoder_effects :=
  repeat match goal with
    | |- Forall _ (fst (bind _ _)) => apply Forall_bind; [|intros]
    | |- Forall _ (fst (lift _)) => apply Forall_nil_2
    | |- Forall _ (fst (ret _)) => apply Forall_nil_2
    | |- Forall _ (fst (emit _)) => apply Forall_cons; split; [exact I|apply Forall_nil_2]
    | |- Forall _ (fst (if ?b then _ else _)) => destruct b
    | |- Forall _ (fst (match ?z with Z0 => _ | Zpos _ => _ | Zneg _ => _ end)) =>
        destruct z as [|[[|[]|]|[|[]|]|]|]
    | |- Forall _ (fst (match ?o with Some _ => _ | None => _ end)) => destruct o
    | |- Forall _ (fst (match ?c with Normal _ => _ | Throw _ => _ end)) => destruct c
    end.

Lemma decodeUpdateFrame_effects (rt : Runtime) (frame : Buffer) (expected : Z) :
  Forall decoder_effect (fst (decodeUpdateFrame rt frame expected)).
Proof. unfold decodeUpdateFrame. decoder_effects. Qed.

Lemma onUpdateMessage_effects (rt : Runtime) (registry : value -> option Device)
  (data : Buffer) :
  Forall decoder_effect (fst (onUpdateMessage rt registry data)).
Proof.
  unfold onUpdateMessage, decodeUpdatePacket, routeUpdatePacket.
  decoder_effects; apply decodeUpdateFrame_effects.
Qed.

Lemma decoder_effect_no_send (es : list effect) (h : nat) :
  Forall decoder_effect es -> SocketSend h ∉ es.
Proof.
  intros Hall Hin. rewrite Forall_forall in Hall.
  apply (Hall _ Hin).
Qed.

(** ** The listeners *)

Section Emission.

Context (rt : Runtime).

Lemma fst_jbind_jret {A} (m : JS A) (w : world) :
  fst ((m ;;~ jret tt) w) = fst (m w).
Proof. unfold jbind, jret. destruct (m w) as [w' [a|e]]; reflexivity. Qed.

Lemma emit_to_app (l1 l2 : list listener) (ev : socket_event) (w : world) :
  emit_to rt (l1 ++ l2) ev w = (emit_to rt l1 ev ;;~ emit_to rt l2 ev) w.
Proof.
  revert w. induction l1 as [|l l1 IH]; intros w; cbn [app emit_to].
  - reflexivity.
  - unfold jbind. destruct (run_listener rt l ev w) as [w' [[]|e]].
    + rewrite IH. reflexivity.
    + reflexivity.
Qed.

(** Only the close listener reacts to [close]. *)
Lemma emit_to_skip (ls : list listener) (w : world) :
  OnClose ∉ ls -> emit_to rt ls SClose w = (w, Normal tt).
Proof.
  induction ls as [|l ls IH]; intros Hno; cbn [emit_to]; [reflexivity|].
  apply not_elem_of_cons in Hno as [Hl Hls].
  unfold jbind. destruct l; try contradiction; cbn [run_listener jret];
    apply IH, Hls.
Qed.

Lemma run_listener_close (w : world) :
  run_listener rt OnClose SClose w = (closed w, Normal tt).
Proof.
  destruct w as [l c p so iv f tmo mt lu ce gd tr].
  cbn [run_listener]. js. cbv beta iota.
  destruct p; rewrite <- ?app_assoc; reflexivity.
Qed.

Lemma emit_to_close (ls : list listener) (w : world) :
  closes_once ls -> emit_to rt ls SClose w = (closed w, Normal tt).
Proof.
  intros (pre & post & -> & Hpre & Hpost).
  rewrite emit_to_app. unfold jbind. rewrite (emit_to_skip pre w Hpre).
  cbn [emit_to]. unfold jbind. rewrite run_listener_close.
  apply emit_to_skip, Hpost.
Qed.

(** Every other pair of listener and event only adds to the trace, and
    nothing that is a send. *)
Lemma run_listener_trace (l : listener) (ev : socket_event) (w : world) :
  l <> OnClose \/ ev <> SClose ->
  exists es, fst (run_listener rt l ev w) = record es w /\
             forall h, SocketSend h ∉ es.
Proof.
  intros Hne.
  assert (Hnil : exists es, w = record es w /\ forall h, SocketSend h ∉ es).
  { exists []. split; [|intros h H; inversion H].
    destruct w; unfold record; cbn. rewrite app_nil_r. reflexivity. }
  destruct l, ev; try exact Hnil; try (destruct Hne; congruence);
    cbn [run_listener].
  - eexists. split.
    + destruct w; js; cbv beta iota; rewrite <- app_assoc; reflexivity.
    + intros h H. repeat (apply elem_of_cons in H as [H|H]; [discriminate|]).
      inversion H.
  - eexists. split.
    + destruct w; js; cbv beta iota; reflexivity.
    + intros h H. repeat (apply elem_of_cons in H as [H|H]; [discriminate|]).
      inversion H.
  - eexists. split.
    + destruct w; js; cbv beta iota; rewrite <- app_assoc; reflexivity.
    + intros h H. repeat (apply elem_of_cons in H as [H|H]; [discriminate|]).
      inversion H.
  - destruct (negb (String.eqb message
        "WebSocket was closed before the connection was established")).
    + eexists. split.
      * destruct w; js; cbv beta iota; rewrite <- !app_assoc; reflexivity.
      * intros h H. cbn [app] in H.
        repeat (apply elem_of_cons in H as [H|H]; [discriminate|]).
        inversion H.
    + eexists. split.
      * destruct w; js; cbv beta iota; rewrite <- !app_assoc; reflexivity.
      * intros h H. cbn [app] in H.
        repeat (apply elem_of_cons in H as [H|H]; [discriminate|]).
        inversion H.
  - exists (fst (onUpdateMessage rt (getDeviceById w) data)). split.
    + destruct w; js; cbv beta iota. reflexivity.
    + intros h. apply decoder_effect_no_send, onUpdateMessage_effects.
Qed.

Lemma record_record (es1 es2 : list effect) (w : world) :
  record es2 (record es1 w) = record (es1 ++ es2) w.
Proof. destruct w; unfold record; cbn. rewrite app_assoc. reflexivity. Qed.

Lemma emit_to_trace (ls : list listener) (ev : socket_event) (w : world) :
  ev <> SClose ->
  exists es, fst (emit_to rt ls ev w) = record es w /\
             forall h, SocketSend h ∉ es.
Proof.
  intros Hev. revert w. induction ls as [|l ls IH]; intros w; cbn [emit_to].
  - exists []. split; [|intros h H; inversion H].
    destruct w; unfold record, jret; cbn. rewrite app_nil_r. reflexivity.
  - destruct (run_listener_trace l ev w (or_intror Hev)) as (es1 & H1 & N1).
    unfold jbind. destruct (run_listener rt l ev w) as [w1 [[]|e]];
      cbn [fst] in H1; subst w1.
    + destruct (IH (record es1 w)) as (es2 & H2 & N2).
      exists (es1 ++ es2). rewrite H2, record_record. split; [reflexivity|].
      intros h H. apply elem_of_app in H as [H|H]; [apply (N1 h H)|apply (N2 h H)].
    + exists es1. split; [reflexivity|exact N1].
Qed.

End Emission.

(** ** Steps of the event loop *)

Section Steps.

Context (rt : Runtime).

Lemma record_same (es : list effect) (w : world) : same_connection w (record es w).
Proof. repeat split. Qed.

Lemma closed_consistent (w : world) (h : nat) :
  consistent w -> _eventListener w = RObj h ->
  consistent (closed (set_sockets (delete h (sockets w)) w)).
Proof.
  unfold consistent. intros Hc El. rewrite El in Hc.
  destruct Hc as (ls & t & Hs & Hls & Hp & Hi & Hf).
  cbn [closed set_sockets _eventListener sockets intervals _pingPong].
  rewrite Hs, Hp, Hi. split.
  - apply delete_singleton_eq.
  - apply difference_diag_L.
Qed.

(** An enabled socket event comes from the socket that is held. *)
Lemma enabled_socket (w : world) (h : nat) (ev : socket_event) :
  consistent w -> enabled w (FromSocket h ev) = true ->
  exists ls, _eventListener w = RObj h /\ sockets w = {[h := ls]} /\
             closes_once ls /\ sockets w !! h = Some ls.
Proof.
  unfold consistent, enabled. intros Hc Hen.
  apply bool_decide_eq_true in Hen as [ls' Hls'].
  destruct (_eventListener w) as [| |h'].
  - destruct Hc as [Hs _]. rewrite Hs, lookup_empty in Hls'. discriminate.
  - destruct Hc as [Hs _]. rewrite Hs, lookup_empty in Hls'. discriminate.
  - destruct Hc as (ls & t & Hs & Hcl & _).
    rewrite Hs in Hls'. apply lookup_singleton_Some in Hls' as [Hh _].
    subst h'. exists ls. rewrite Hs. repeat split; try assumption.
    apply lookup_singleton_eq.
Qed.

Lemma step_close (w : world) (h : nat) :
  consistent w -> enabled w (FromSocket h SClose) = true ->
  step rt (FromSocket h SClose) w
  = (closed (set_sockets (delete h (sockets w)) w), Normal tt).
Proof.
  intros Hc Hen.
  destruct (enabled_socket w h SClose Hc Hen) as (ls & El & Hs & Hcl & Hl).
  unfold step, jbind, jread, jwrite. rewrite Hl. cbn [default].
  apply emit_to_close, Hcl.
Qed.

Lemma step_consistent (i : input) (w : world) :
  consistent w -> enabled w i = true -> consistent (fst (step rt i w)).
Proof.
  intros Hc Hen. destruct i.
  - eapply consistent_same_connection; [|exact Hc]. repeat split.
  - eapply consistent_same_connection; [|exact Hc]. repeat split.
  - eapply consistent_same_connection; [|exact Hc]. repeat split.
  - cbn [step]. rewrite fst_jbind_jret. apply launchUpdatesListener_consistent, Hc.
  - cbn [step]. rewrite fst_jbind_jret. apply configureUpdatesListener_consistent, Hc.
  - apply waitForBootstrap_consistent, Hc.
  - eapply consistent_same_connection; [apply disconnectEventListener_same|exact Hc].
  - eapply consistent_same_connection; [apply reconnectUpdatesListener_same|exact Hc].
  - assert (Hcase : ev = SClose \/ ev <> SClose)
      by (destruct ev; (left; reflexivity) || (right; discriminate)).
    destruct Hcase as [->|Hev].
    + rewrite step_close by assumption.
      destruct (enabled_socket w h SClose Hc Hen) as (ls & El & _).
      apply closed_consistent; assumption.
    + cbn [step]. unfold jbind, jread.
      assert (Hskip : (match ev with
                       | SClose => jwrite (fun w0 => set_sockets (delete h (sockets w0)) w0)
                       | _ => jret tt
                       end) w = (w, Normal tt))
        by (destruct ev; try reflexivity; congruence).
      rewrite Hskip.
      destruct (emit_to_trace rt (default [] (sockets w !! h)) ev w Hev)
        as (es & -> & _).
      eapply consistent_same_connection; [apply record_same|exact Hc].
  - eapply consistent_same_connection; [apply sendPingPongMessage_same|exact Hc].
  - cbn [step]. unfold jbind, jwrite. apply waitForBootstrap_consistent.
    eapply consistent_same_connection; [|exact Hc]. repeat split.
  - cbn [step]. unfold jbind, jwrite. apply waitForBootstrap_consistent.
    eapply consistent_same_connection; [|exact Hc]. repeat split.
Qed.

Lemma run_consistent (inputs : list input) (w : world) :
  consistent w -> consistent (run rt inputs w).
Proof.
  revert w. induction inputs as [|i rest IH]; intros w Hc; cbn [run].
  - exact Hc.
  - destruct (enabled w i) eqn:Hen.
    + apply IH, step_consistent; assumption.
    + apply IH, Hc.
Qed.

Lemma reachable_consistent (w : world) : reachable rt w -> consistent w.
Proof.
  intros (cursor & ctor & registry & inputs & ->).
  apply run_consistent, consistent_new.
Qed.

End Steps.

(** ** After a connection has closed *)

Section Retired.

Context (rt : Runtime) (h t : nat).

Ltac no_send :=
  let H := fresh "Hin" in
  intros H; cbn [app] in H;
  repeat (apply elem_of_cons in H as [H|H]; [first [discriminate H|congruence]|]);
  inversion H.

Ltac trace_grows :=
  first [ symmetry; apply app_nil_r | rewrite <- ?app_assoc; reflexivity ].

Lemma keeps_refl (w : world) : keeps h t w w.
Proof.
  intros Hr. split; [exact Hr|]. exists []. split; [symmetry; apply app_nil_r|].
  intros H; inversion H.
Qed.

Lemma keeps_trans (w1 w2 w3 : world) :
  keeps h t w1 w2 -> keeps h t w2 w3 -> keeps h t w1 w3.
Proof.
  intros H12 H23 Hr. destruct (H12 Hr) as [Hr2 (es1 & T1 & N1)].
  destruct (H23 Hr2) as [Hr3 (es2 & T2 & N2)]. split; [exact Hr3|].
  exists (es1 ++ es2). split.
  - rewrite T2, T1, app_assoc. reflexivity.
  - intros H. apply elem_of_app in H as [H|H]; contradiction.
Qed.

Lemma keeps_frame (w w' : world) (es : list effect) :
  _eventListener w' = _eventListener w -> intervals w' = intervals w ->
  fresh w' = fresh w -> trace w' = trace w ++ es ->
  (_eventListener w <> RObj h -> SocketSend h ∉ es) ->
  keeps h t w w'.
Proof.
  intros El Ei Ef Et Hes (Hh & Ht & Hl & Hi). split.
  - unfold retired. rewrite El, Ei, Ef. auto.
  - exists es. auto.
Qed.

Lemma keeps_record (es : list effect) (w : world) :
  (forall h', SocketSend h' ∉ es) -> keeps h t w (record es w).
Proof.
  intros Hes. apply (keeps_frame w (record es w) es); try reflexivity.
  intros _. apply Hes.
Qed.

Lemma launchUpdatesListener_keeps (w : world) :
  keeps h t w (fst (launchUpdatesListener w)).
Proof.
  rewrite launchUpdatesListener_cases.
  destruct (_eventListener w) eqn:El; [| |apply keeps_refl];
    (destruct (constructor_error w);
     [ apply keeps_record; intros h'; unfold construction_failure; no_send
     | intros (Hh & Ht & Hl & Hi); split;
       [ unfold retired; cbn [fst launched fresh _eventListener intervals];
         repeat split; [lia|lia|intros [= E]; lia|];
         rewrite elem_of_union, elem_of_singleton; intros [E|Hin]; [lia|contradiction]
       | cbn [fst]; eexists; split; [reflexivity|no_send] ] ]).
Qed.

Lemma configureUpdatesListener_keeps (w : world) :
  keeps h t w (fst (configureUpdatesListener w)).
Proof.
  destruct w as [l c p so iv f tmo mt lu ce gd tr]. js.
  destruct l; cbv beta iota; try apply keeps_refl.
  destruct c; cbv beta iota; [apply keeps_refl|].
  eapply keeps_frame; cbn; try reflexivity; [trace_grows|intros _; no_send].
Qed.

Lemma disconnectEventListener_keeps (w : world) :
  keeps h t w (fst (disconnectEventListener w)).
Proof.
  destruct w as [l c p so iv f tmo mt lu ce gd tr]. js.
  destruct l; cbv beta iota;
    (eapply keeps_frame; cbn; try reflexivity; [trace_grows|intros _; no_send]).
Qed.

Lemma reconnectUpdatesListener_keeps (w : world) :
  keeps h t w (fst (reconnectUpdatesListener w)).
Proof.
  destruct w as [l c p so iv f tmo mt lu ce gd tr]. js.
  destruct l; cbv beta iota;
    (eapply keeps_frame; cbn; try reflexivity; [trace_grows|intros _; no_send]).
Qed.

Lemma sendPingPongMessage_keeps (w : world) :
  keeps h t w (fst (sendPingPongMessage w)).
Proof.
  destruct w as [l c p so iv f tmo mt lu ce gd tr]. js.
  destruct l; cbv beta iota;
    (eapply keeps_frame; cbn; try reflexivity; [trace_grows|intros Hl; no_send]).
Qed.

Lemma waitForBootstrap_keeps (w : world) :
  keeps h t w (fst (waitForBootstrap w)).
Proof.
  unfold waitForBootstrap, jbind, jread.
  destruct (lastUpdateId w) as [cursor|].
  - unfold jlog at 1, jwrite at 1.
    eapply keeps_trans; [apply (keeps_record [DebugLog DbgCalledWaitForBootstrap]);
                         intros h'; no_send|].
    pose proof (launchUpdatesListener_keeps
                  (record [DebugLog DbgCalledWaitForBootstrap] w)) as Hk.
    pose proof (launchUpdatesListener_normal
                  (record [DebugLog DbgCalledWaitForBootstrap] w)) as Hr.
    destruct (launchUpdatesListener (record [DebugLog DbgCalledWaitForBootstrap] w))
      as [w2 r]. cbn [fst snd] in *. subst r.
    eapply keeps_trans; [exact Hk|].
    pose proof (configureUpdatesListener_keeps w2) as Hk2.
    destruct (configureUpdatesListener w2) as [w3 [b|e]]; exact Hk2.
  - destruct w as [l c p so iv f tmo mt lu ce gd tr]. js.
    eapply keeps_frame; cbn; try reflexivity; [trace_grows|intros _; no_send].
Qed.

Lemma closed_keeps (w : world) : keeps h t w (closed w).
Proof.
  intros (Hh & Ht & Hl & Hi). split.
  - unfold retired. cbn [closed fresh _eventListener intervals].
    repeat split; try assumption; [discriminate|].
    destruct (_pingPong w); [|assumption].
    rewrite elem_of_difference. intros [Hin _]. contradiction.
  - exists (teardown (_pingPong w)). split; [reflexivity|].
    unfold teardown. no_send.
Qed.

Lemma run_listener_keeps (l : listener) (ev : socket_event) (w : world) :
  keeps h t w (fst (run_listener rt l ev w)).
Proof.
  assert (Hcase : (l = OnClose /\ ev = SClose) \/ (l <> OnClose \/ ev <> SClose)).
  { destruct l; try (right; left; discriminate).
    destruct ev; try (right; right; discriminate). left. split; reflexivity. }
  destruct Hcase as [[-> ->]|Hne].
  - rewrite run_listener_close. apply closed_keeps.
  - destruct (run_listener_trace rt l ev w Hne) as (es & -> & Hes).
    apply keeps_record, Hes.
Qed.

Lemma emit_to_keeps (ls : list listener) (ev : socket_event) (w : world) :
  keeps h t w (fst (emit_to rt ls ev w)).
Proof.
  revert w. induction ls as [|l ls IH]; intros w; cbn [emit_to].
  - apply keeps_refl.
  - unfold jbind. pose proof (run_listener_keeps l ev w) as Hk.
    destruct (run_listener rt l ev w) as [w1 [[]|e]]; cbn [fst] in *.
    + eapply keeps_trans; [exact Hk|apply IH].
    + exact Hk.
Qed.

Lemma step_keeps (i : input) (w : world) :
  keeps h t w (fst (step rt i w)).
Proof.
  destruct i; cbn [step].
  - eapply keeps_frame; cbn; try reflexivity; [trace_grows|intros _; no_send].
  - eapply keeps_frame; cbn; try reflexivity; [trace_grows|intros _; no_send].
  - eapply keeps_frame; cbn; try reflexivity; [trace_grows|intros _; no_send].
  - rewrite fst_jbind_jret. apply launchUpdatesListener_keeps.
  - rewrite fst_jbind_jret. apply configureUpdatesListener_keeps.
  - apply waitForBootstrap_keeps.
  - apply disconnectEventListener_keeps.
  - apply reconnectUpdatesListener_keeps.
  - unfold jbind, jread.
    destruct ev; cbn [jret jwrite]; try apply emit_to_keeps.
    eapply keeps_trans; [|apply emit_to_keeps].
    eapply keeps_frame; cbn; try reflexivity; [trace_grows|intros _; no_send].
  - apply sendPingPongMessage_keeps.
  - unfold jbind, jwrite. eapply keeps_trans; [|apply waitForBootstrap_keeps].
    eapply keeps_frame; cbn; try reflexivity; [trace_grows|intros _; no_send].
  - unfold jbind, jwrite. eapply keeps_trans; [|apply waitForBootstrap_keeps].
    eapply keeps_frame; cbn; try reflexivity; [trace_grows|intros _; no_send].
Qed.

Lemma run_keeps (inputs : list input) (w : world) :
  keeps h t w (run rt inputs w).
Proof.
  revert w. induction inputs as [|i rest IH]; intros w; cbn [run].
  - apply keeps_refl.
  - destruct (enabled w i).
    + eapply keeps_trans; [apply step_keeps|apply IH].
    + apply IH.
Qed.

End Retired.

(** ** The lifecycle claims *)

Section LifecycleClaims.

Context (rt : Runtime).

(** C7. In every reachable state, a close event of the held socket
    finds its heartbeat timer running and cancels it before the
    reconnection is scheduled: the listener's calls are, in this order,
    [clearInterval], the status notification, the log line of
    [reconnectUpdatesListener] and the scheduling of [waitForBootstrap].
    After the event no interval is left, and however the event loop goes
    on, that timer never runs again and nothing is sent on that socket. *)
Theorem close_cancels_heartbeat (w : world) (h : nat) :
  reachable rt w -> enabled w (FromSocket h SClose) = true ->
  exists t,
    _eventListener w = RObj h /\ _pingPong w = Some t /\ intervals w = {[t]} /\
    snd (step rt (FromSocket h SClose) w) = Normal tt /\
    trace (fst (step rt (FromSocket h SClose) w))
    = trace w ++ [IntervalCleared (Some t);
                  Realtime EVENT_SETTINGS_WEBSOCKET_STATUS (RText "Disconnected");
                  DebugLog DbgCalledReconnect;
                  ThenScheduled] /\
    intervals (fst (step rt (FromSocket h SClose) w)) = ∅ /\
    forall inputs,
      (t ∉ intervals (run rt inputs (fst (step rt (FromSocket h SClose) w)))) /\
      exists es,
        trace (run rt inputs (fst (step rt (FromSocket h SClose) w)))
        = trace (fst (step rt (FromSocket h SClose) w)) ++ es /\
        SocketSend h ∉ es.
Proof.
  intros Hreach Hen. pose proof (reachable_consistent rt w Hreach) as Hc.
  destruct (enabled_socket w h SClose Hc Hen) as (ls & El & Hs & Hcl & Hl).
  pose proof Hc as Hc'. unfold consistent in Hc'. rewrite El in Hc'.
  destruct Hc' as (ls' & t & _ & _ & Hp & Hi & Hh & Ht).
  exists t. rewrite (step_close rt w h Hc Hen). cbn [fst snd].
  split; [exact El|]. split; [exact Hp|]. split; [exact Hi|].
  split; [reflexivity|].
  split; [cbn [closed set_sockets trace _pingPong]; rewrite Hp; reflexivity|].
  assert (Hempty : intervals (closed (set_sockets (delete h (sockets w)) w)) = ∅).
  { cbn [closed set_sockets intervals _pingPong]. rewrite Hp, Hi.
    apply difference_diag_L. }
  split; [exact Hempty|].
  intros inputs.
  assert (Hret : retired h t (closed (set_sockets (delete h (sockets w)) w))).
  { unfold retired. rewrite Hempty.
    cbn [closed set_sockets fresh _eventListener].
    repeat split; [exact Hh|exact Ht|discriminate|apply not_elem_of_empty]. }
  destruct (run_keeps rt h t inputs _ Hret) as [(_ & _ & _ & Hout) Hsilent].
  split; [exact Hout|exact Hsilent].
Qed.

(** C9. With a listener held, [launchUpdatesListener] returns [true]
    and leaves the state as it was: no socket is made, no timer is set.
    From a reachable state in which the construction of a socket
    succeeds, a second call right after the first changes nothing, and
    exactly one socket and one heartbeat timer are live. *)
Theorem launchUpdatesListener_idempotent (w : world) :
  (ref_truthy (_eventListener w) = true ->
   launchUpdatesListener w = (w, Normal true)) /\
  (reachable rt w -> constructor_error w = None ->
   launchUpdatesListener (fst (launchUpdatesListener w))
   = (fst (launchUpdatesListener w), Normal true) /\
   size (sockets (fst (launchUpdatesListener w))) = 1%nat /\
   size (intervals (fst (launchUpdatesListener w))) = 1%nat).
Proof.
  split.
  - intros Hl. rewrite launchUpdatesListener_cases.
    destruct (_eventListener w); try discriminate. reflexivity.
  - intros Hreach Hctor.
    pose proof (reachable_consistent rt w Hreach) as Hc.
    pose proof (launchUpdatesListener_consistent w Hc) as Hc1.
    assert (Hlive : exists h, _eventListener (fst (launchUpdatesListener w)) = RObj h).
    { rewrite launchUpdatesListener_cases, Hctor.
      destruct (_eventListener w) as [| |h0] eqn:El; cbn [fst launched _eventListener];
        eauto. }
    destruct Hlive as [h Hh]. split.
    + rewrite (launchUpdatesListener_cases (fst (launchUpdatesListener w))), Hh.
      reflexivity.
    + unfold consistent in Hc1. rewrite Hh in Hc1.
      destruct Hc1 as (ls & t & -> & _ & _ & -> & _).
      split; [apply map_size_singleton|apply size_singleton].
Qed.

(** The sibling path: a socket that closes, as it does after a failed
    handshake, leaves a call of [waitForBootstrap] queued. *)
Lemma close_schedules_waitForBootstrap (w : world) (h : nat) :
  reachable rt w -> enabled w (FromSocket h SClose) = true ->
  enabled (fst (step rt (FromSocket h SClose) w)) MicrotaskRuns = true.
Proof.
  intros Hreach Hen. pose proof (reachable_consistent rt w Hreach) as Hc.
  rewrite (step_close rt w h Hc Hen). reflexivity.
Qed.

Lemma waitForBootstrap_failure (w : world) (cursor : string) (e : error) :
  lastUpdateId w = Some cursor -> constructor_error w = Some e ->
  ref_truthy (_eventListener w) = false ->
  waitForBootstrap w
  = (record (DebugLog DbgCalledWaitForBootstrap :: construction_failure e) w,
     Normal tt).
Proof.
  destruct w as [l c p so iv f tmo mt lu ce gd tr].
  cbn [lastUpdateId constructor_error _eventListener]. intros -> -> Hl.
  js. destruct l; try discriminate; cbv beta iota;
    rewrite <- !app_assoc; reflexivity.
Qed.

(** C3, at a failed construction. With the cursor there and the
    constructor throwing, a connection attempt made through
    [waitForBootstrap] ends normally, with the failure logged and
    notified; it leaves the object as quiet as it found it: no socket,
    no timer, no callback scheduled, so no event of a socket, no tick,
    no timeout and no promise callback can follow. *)
Theorem construction_failure_is_terminal (w : world) (cursor : string) (e : error) :
  lastUpdateId w = Some cursor -> constructor_error w = Some e ->
  ref_truthy (_eventListener w) = false -> quiescent w = true ->
  snd (waitForBootstrap w) = Normal tt /\
  trace (fst (waitForBootstrap w))
  = trace w ++ [DebugLog DbgCalledWaitForBootstrap;
                DebugLog DbgUpdateListener;
                Realtime EVENT_SETTINGS_WEBSOCKET_STATUS (RText "Connecting");
                DebugLog (DbgErrorConnecting e);
                Realtime EVENT_SETTINGS_WEBSOCKET_STATUS (RError e)] /\
  _eventListener (fst (waitForBootstrap w)) = _eventListener w /\
  quiescent (fst (waitForBootstrap w)) = true /\
  (forall h ev, enabled (fst (waitForBootstrap w)) (FromSocket h ev) = false) /\
  (forall t, enabled (fst (waitForBootstrap w)) (IntervalTick t) = false) /\
  enabled (fst (waitForBootstrap w)) TimeoutFires = false /\
  enabled (fst (waitForBootstrap w)) MicrotaskRuns = false.
Proof.
  intros Hcur Hctor Hl Hq.
  rewrite (waitForBootstrap_failure w cursor e Hcur Hctor Hl). cbn [fst snd].
  split; [reflexivity|]. split; [reflexivity|]. split; [reflexivity|].
  split; [exact Hq|].
  unfold quiescent in Hq.
  apply andb_true_iff in Hq as [Hq Hm]. apply andb_true_iff in Hq as [Hq Ht].
  apply andb_true_iff in Hq as [Hs Hi].
  apply bool_decide_eq_true in Hs, Hi. apply Nat.eqb_eq in Hm, Ht.
  unfold enabled. cbn [record sockets intervals timeouts microtasks].
  rewrite Hs, Hi, Hm, Ht. split; [|split; [|split; reflexivity]].
  - intros h ev. apply bool_decide_eq_false. rewrite lookup_empty.
    intros [x Hx]. discriminate.
  - intros t. apply bool_decide_eq_false. apply not_elem_of_empty.
Qed.

End LifecycleClaims.

(** * The claims on sample data *)

Lemma decodeUpdatePacket_length_mismatch_witness :
  exists e, decodeUpdatePacket ref_runtime [x01; x01; x00]
            = ([DebugLog (DbgDecodeError e)], Normal VNull).
Proof.
  apply (decodeUpdatePacket_length_mismatch ref_runtime [x01; x01; x00]).
  reflexivity.
Defined.

Lemma decodeUpdatePacket_throws_witness :
  decodeUpdatePacket ref_runtime unparseable_packet = ([], Throw SyntaxError) /\
  decodeUpdatePacket ref_runtime uninflatable_packet = ([], Throw ZlibError).
Proof.
  split.
  - apply (proj1 (decodeUpdatePacket_throws ref_runtime one_camera SyntaxError)).
    reflexivity.
  - apply (proj2 (decodeUpdatePacket_throws ref_runtime one_camera ZlibError)).
    reflexivity.
Defined.

Lemma decodeUpdateFrame_rejections_witness :
  decodeUpdateFrame ref_runtime [x02; x01; x00] 1 = ([], Normal VNull) /\
  decodeUpdateFrame ref_runtime
    ([x01; x03; x01; x00; x00; x00; x00; x0d] ++ empty_object_stored) 1
  = ([], Normal VNull) /\
  decodeUpdateFrame ref_runtime [x02; x07; x00; x00; x00; x00; x00; x00] 2
  = ([DebugLog (DbgUnknownPayload 7)], Normal VNull).
Proof.
  split; [|split].
  - apply (proj1 (decodeUpdateFrame_rejections ref_runtime [x02; x01; x00]) x02 1).
    + reflexivity.
    + discriminate.
  - apply (proj1 (proj2 (decodeUpdateFrame_rejections ref_runtime
             ([x01; x03; x01; x00; x00; x00; x00; x0d] ++ empty_object_stored)))
             x03 x01).
    + reflexivity.
    + reflexivity.
    + reflexivity.
    + right. exists empty_object_text. reflexivity.
    + discriminate.
  - apply (proj1 (proj2 (proj2 (decodeUpdateFrame_rejections ref_runtime
             [x02; x07; x00; x00; x00; x00; x00; x00]))) x07 x00).
    + reflexivity.
    + reflexivity.
    + reflexivity.
    + left. reflexivity.
    + discriminate.
    + discriminate.
    + discriminate.
Defined.

(** C8 as stated fails: an action frame with format tag 2 whose
    compressed body does not inflate makes [decodeUpdateFrame] throw
    instead of returning [null]. *)
Lemma decodeUpdateFrame_rejections_counterexample :
  ~ (forall (rt : Runtime) (frame : Buffer) (fmt : byte),
       frame !! 0%nat = Some x01 -> frame !! 1%nat = Some fmt -> byteZ fmt <> 1 ->
       snd (decodeUpdateFrame rt frame 1) = Normal VNull).
Proof.
  intros H.
  specialize (H ref_runtime truncated_frame x02 eq_refl eq_refl).
  assert (Hne : byteZ x02 <> 1) by discriminate.
  specialize (H Hne). vm_compute in H. discriminate H.
Qed.

Lemma decodeUpdatePacket_roundtrip_witness :
  decodeUpdatePacket ref_runtime
    (encodeUpdatePacket
       {| frame_format := 1; frame_compressed := true;
          frame_stored := empty_object_stored |}
       {| frame_format := 2; frame_compressed := false;
          frame_stored := ascii_bytes "motion" |})
  = ([], Normal (UpdatePacket (VObj []) (VStr "motion"))).
Proof.
  apply (decodeUpdatePacket_roundtrip ref_runtime (VObj []) (TextPayload "motion")
           true false empty_object_text empty_object_stored
           (ascii_bytes "motion") (ascii_bytes "motion")).
  - reflexivity.
  - reflexivity.
  - reflexivity.
  - reflexivity.
  - reflexivity.
  - reflexivity.
  - reflexivity.
  - reflexivity.
Defined.

(** C4 as stated fails: the empty text is a payload value of the text
    variant, and a packet that carries it decodes to [null]. *)
Lemma decodeUpdatePacket_roundtrip_counterexample :
  ~ (forall (rt : Runtime) (a : value) (p : payload_value) (ca cp : bool)
       (body_a stored_a body_p stored_p : Buffer),
       serialises rt body_a (JsonPayload a) -> serialises rt body_p p ->
       stores rt ca stored_a body_a -> stores rt cp stored_p body_p ->
       buf_length stored_a < 4294967296 -> buf_length stored_p < 4294967296 ->
       decodeUpdatePacket rt
         (encodeUpdatePacket
            {| frame_format := 1; frame_compressed := ca; frame_stored := stored_a |}
            {| frame_format := format_tag p; frame_compressed := cp;
               frame_stored := stored_p |})
       = ([], Normal (UpdatePacket a (delivered p)))).
Proof.
  intros H.
  specialize (H ref_runtime (VObj []) (TextPayload "") false false
                empty_object_text empty_object_text [] []
                eq_refl eq_refl eq_refl eq_refl eq_refl eq_refl).
  vm_compute in H. discriminate H.
Qed.

Lemma stats_check_is_truthiness_witness :
  routeUpdatePacket one_camera
    (UpdatePacket camera_update (VObj [("stats"%string, VObj [])]))
  = ([], Normal tt) /\
  routeUpdatePacket one_camera
    (UpdatePacket camera_update (VObj [("stats"%string, VStr "")]))
  = ([Forward 7%nat (VObj [("stats"%string, VStr "")])], Normal tt).
Proof.
  split.
  - apply (proj1 (stats_check_is_truthiness one_camera camera_update
                    (VObj [("stats"%string, VObj [])])
                    eq_refl eq_refl eq_refl eq_refl)).
    reflexivity.
  - apply (proj2 (stats_check_is_truthiness one_camera camera_update
                    (VObj [("stats"%string, VStr "")])
                    eq_refl eq_refl eq_refl eq_refl)).
    reflexivity.
Defined.

(** C2 as stated fails: a camera update whose payload has [stats: null]
    is forwarded. *)
Lemma stats_check_is_truthiness_counterexample :
  ~ (forall (registry : value -> option Device) (a : value)
       (fields : list (string * value)) (stats : value),
       truthy a = true ->
       prop a "action" = VStr "update" -> prop a "modelKey" = VStr "camera" ->
       assoc "stats" fields = Some stats ->
       fst (routeUpdatePacket registry (UpdatePacket a (VObj fields))) = []).
Proof.
  intros H.
  specialize (H one_camera camera_update [("stats"%string, VNull)] VNull
                eq_refl eq_refl eq_refl eq_refl).
  vm_compute in H. discriminate H.
Qed.

Lemma router_filter_witness :
  routeUpdatePacket one_camera
    (UpdatePacket camera_update (VObj [("lastMotion"%string, VStr "now")]))
  = ([Forward 7%nat (VObj [("lastMotion"%string, VStr "now")])], Normal tt) /\
  routeUpdatePacket (fun _ => None)
    (UpdatePacket camera_update (VObj [("lastMotion"%string, VStr "now")]))
  = ([], Normal tt).
Proof.
  split.
  - apply (proj1 (router_filter one_camera camera_update
                    (VObj [("lastMotion"%string, VStr "now")]) eq_refl eq_refl)
             7%nat); reflexivity.
  - apply (proj2 (router_filter (fun _ => None) camera_update
                    (VObj [("lastMotion"%string, VStr "now")]) eq_refl eq_refl)).
    right. right. right. reflexivity.
Defined.

(** C6 as stated fails: a camera update whose payload bears [stats: 0]
    is forwarded to the resolved device. *)
Lemma router_filter_counterexample :
  ~ (forall (registry : value -> option Device) (a p stats : value),
       truthy a = true -> truthy p = true ->
       (exists fields, p = VObj fields /\ assoc "stats" fields = Some stats) ->
       fst (routeUpdatePacket registry (UpdatePacket a p)) = []).
Proof.
  intros H.
  specialize (H one_camera camera_update
                (VObj [("stats"%string, VNum (S754_zero false))])
                (VNum (S754_zero false)) eq_refl eq_refl).
  assert (Hstats : exists fields,
             VObj [("stats"%string, VNum (S754_zero false))] = VObj fields /\
             assoc "stats" fields = Some (VNum (S754_zero false))).
  { exists [("stats"%string, VNum (S754_zero false))]. split; reflexivity. }
  specialize (H Hstats). vm_compute in H. discriminate H.
Qed.

Lemma construction_failure_is_terminal_witness :
  snd (waitForBootstrap (fresh_object (Some (Error "Invalid URL")))) = Normal tt /\
  quiescent (fst (waitForBootstrap (fresh_object (Some (Error "Invalid URL"))))) = true.
Proof.
  pose proof (construction_failure_is_terminal
                (fresh_object (Some (Error "Invalid URL"))) "1" (Error "Invalid URL")
                eq_refl eq_refl eq_refl eq_refl) as (Hr & _ & _ & Hq & _).
  split; [exact Hr|exact Hq].
Defined.

Lemma close_cancels_heartbeat_witness :
  exists t,
    _pingPong connected_object = Some t /\
    forall inputs,
      t ∉ intervals (run ref_runtime inputs
                       (fst (step ref_runtime (FromSocket 0 SClose) connected_object))).
Proof.
  assert (Hreach : reachable ref_runtime connected_object).
  { exists (Some "1"%string), None, one_camera, [CallWaitForBootstrap]. reflexivity. }
  assert (Hen : enabled connected_object (FromSocket 0 SClose) = true)
    by (vm_compute; reflexivity).
  destruct (close_cancels_heartbeat ref_runtime connected_object 0%nat Hreach Hen)
    as (t & _ & Hp & _ & _ & _ & _ & Hafter).
  exists t. split; [exact Hp|].
  intros inputs. exact (proj1 (Hafter inputs)).
Defined.

Lemma launchUpdatesListener_idempotent_witness :
  launchUpdatesListener connected_object = (connected_object, Normal true) /\
  size (sockets (fst (launchUpdatesListener (fresh_object None)))) = 1%nat.
Proof.
  split.
  - apply (proj1 (launchUpdatesListener_idempotent ref_runtime connected_object)).
    vm_compute. reflexivity.
  - assert (Hreach : reachable ref_runtime (fresh_object None)).
    { exists (Some "1"%string), None, one_camera, []. reflexivity. }
    exact (proj1 (proj2 (proj2 (launchUpdatesListener_idempotent ref_runtime
                                  (fresh_object None)) Hreach eq_refl))).
Defined.

(** * Further properties of the decoder and the router *)

Section DecoderMore.

Context (rt : Runtime).

Lemma uint32_at_Some_length (buf : Buffer) (offset : nat) (n : Z) :
  uint32_at buf offset = Some n -> (offset + 4 <= length buf)%nat.
Proof.
  unfold uint32_at.
  destruct (buf !! offset); [|discriminate].
  destruct (buf !! (offset + 1)%nat); [|discriminate].
  destruct (buf !! (offset + 2)%nat); [|discriminate].
  destruct (buf !! (offset + 3)%nat) eqn:H3; [|discriminate].
  intros _. apply lookup_lt_Some in H3. lia.
Qed.

(** A packet that passes the length validation holds two whole
    headers, the second one at the offset found. *)
Lemma packet_dataOffset_bounds (packet : Buffer) (dataOffset : Z) :
  packet_dataOffset packet = Normal dataOffset ->
  8 <= dataOffset /\ dataOffset + 8 <= buf_length packet.
Proof.
  intros Hd. pose proof (packet_dataOffset_agree packet) as Hagree.
  rewrite Hd in Hagree. destruct Hagree as [Hok (al & Hal & ->)].
  unfold header_lengths_agree in Hok. rewrite Hal in Hok.
  pose proof (uint32_at_range _ _ _ Hal) as Hr.
  destruct (uint32_at packet (Z.to_nat (8 + al + 4))) as [pl|] eqn:Hpl;
    [|discriminate].
  pose proof (uint32_at_range _ _ _ Hpl) as Hr'.
  apply Z.eqb_eq in Hok. lia.
Qed.

Lemma decodeUpdatePacket_rejected (packet : Buffer) (e : error) :
  packet_dataOffset packet = Throw e ->
  decodeUpdatePacket rt packet = ([DebugLog (DbgDecodeError e)], Normal VNull).
Proof. intros Hd. unfold decodeUpdatePacket. rewrite Hd. reflexivity. Qed.

(** X1. A buffer shorter than 16 bytes, the empty one included, cannot
    hold the two headers: [decodeUpdatePacket] logs the decode error and
    returns [null], for every runtime. *)
Theorem decodeUpdatePacket_short (packet : Buffer) :
  buf_length packet < 16 ->
  exists e, decodeUpdatePacket rt packet
            = ([DebugLog (DbgDecodeError e)], Normal VNull).
Proof.
  intros Hshort. destruct (packet_dataOffset packet) as [d|e] eqn:Hd.
  - apply packet_dataOffset_bounds in Hd. lia.
  - exists e. apply decodeUpdatePacket_rejected, Hd.
Qed.

Lemma decodeUpdateFrame_logs (frame : Buffer) (expected : Z) :
  Forall unknown_payload_log (fst (decodeUpdateFrame rt frame expected)).
Proof. unfold decodeUpdateFrame. decoder_effects. Qed.

Lemma fst_bind_Normal {A B} (m : M A) (k : A -> M B) (a : A) :
  snd m = Normal a -> fst (bind m k) = fst m ++ fst (k a).
Proof. destruct m as [t [a'|e]]; cbn; intros [= ->]; reflexivity. Qed.

(** The logs of a packet that passed the length validation are those
    of its two frames. *)
Lemma decodeUpdatePacket_accepted_logs (packet : Buffer) (dataOffset : Z) :
  packet_dataOffset packet = Normal dataOffset ->
  Forall unknown_payload_log (fst (decodeUpdatePacket rt packet)).
Proof.
  intros Hd. unfold decodeUpdatePacket. rewrite Hd.
  apply Forall_bind; [apply decodeUpdateFrame_logs|]. intros a.
  apply Forall_bind; [apply decodeUpdateFrame_logs|]. intros p.
  destruct (negb (truthy a) || negb (truthy p)); apply Forall_nil_2.
Qed.

(** X2. The decode-error line is logged exactly for the buffers whose
    length does not match their headers: a packet that passes the
    validation never logs it, whatever its frames hold. *)
Theorem decode_error_logged_iff (packet : Buffer) :
  (exists e, DebugLog (DbgDecodeError e) ∈ fst (decodeUpdatePacket rt packet)) <->
  header_lengths_agree packet = false.
Proof.
  pose proof (packet_dataOffset_agree packet) as Hagree.
  destruct (packet_dataOffset packet) as [d|e] eqn:Hd.
  - destruct Hagree as [Hok _]. split.
    + intros [e Hin].
      pose proof (decodeUpdatePacket_accepted_logs packet d Hd) as Hall.
      rewrite Forall_forall in Hall. destruct (Hall _ Hin).
    + congruence.
  - split; [intros _; exact Hagree|]. intros _. exists e.
    rewrite (decodeUpdatePacket_rejected packet e Hd). apply list_elem_of_here.
Qed.

Lemma lookup_is_Some_lt (buf : Buffer) (i : nat) :
  (i < length buf)%nat -> exists b, buf !! i = Some b.
Proof. intros Hi. apply lookup_lt_is_Some_2 in Hi as [b Hb]. eauto. Qed.

(** A frame with its header bytes throws only what a codec threw. *)
Lemma decodeUpdateFrame_throw_origin (frame : Buffer) (expected : Z) (e : error) :
  (3 <= length frame)%nat ->
  snd (decodeUpdateFrame rt frame expected) = Throw e -> codec_error rt e.
Proof.
  intros Hlen.
  destruct (lookup_is_Some_lt frame 0) as [t0 H0]; [lia|].
  destruct (lookup_is_Some_lt frame 1) as [fmt H1]; [lia|].
  destruct (lookup_is_Some_lt frame 2) as [flag H2]; [lia|].
  rewrite (decodeUpdateFrame_header rt frame expected t0 fmt flag H0 H1 H2).
  destruct (negb (expected =? byteZ t0)); [discriminate|].
  fold (payload_dispatch rt (byteZ fmt)).
  assert (Htail : forall payload : Buffer,
    snd (if byteZ t0 =? 1
         then if byteZ fmt =? 1
              then lift (JSON_parse rt (toString rt payload)) else ret VNull
         else payload_dispatch rt (byteZ fmt) payload) = Throw e ->
    codec_error rt e).
  { intros payload. destruct (byteZ t0 =? 1).
    - destruct (byteZ fmt =? 1); [|discriminate].
      cbn [lift snd]. intros H. right. eauto.
    - unfold payload_dispatch.
      destruct (byteZ fmt) as [|[[|[]|]|[|[]|]|]|]; try discriminate.
      cbn [lift snd]. intros H. right. eauto. }
  destruct (negb (byteZ flag =? 0)).
  - destruct (inflateSync rt (drop 8 frame)) as [body|e'] eqn:Hinf.
    + rewrite bind_lift_Normal. apply Htail.
    + rewrite bind_lift_Throw. cbn [snd]. intros [= ->]. left. eauto.
  - rewrite bind_ret. apply Htail.
Qed.

Lemma snd_bind_Throw {A B} (m : M A) (k : A -> M B) (e : error) :
  snd (bind m k) = Throw e ->
  snd m = Throw e \/ exists a, snd m = Normal a /\ snd (k a) = Throw e.
Proof.
  destruct m as [t [a|e']]; cbn [bind snd]; intros H.
  - right. eauto.
  - left. injection H as ->. reflexivity.
Qed.

(** X3. Whatever [decodeUpdatePacket] throws was thrown by
    [zlib.inflateSync] or by [JSON.parse]: the reads of the frame
    headers never fail once the length validation has passed. *)
Theorem decodeUpdatePacket_throw_origin (packet : Buffer) (e : error) :
  snd (decodeUpdatePacket rt packet) = Throw e -> codec_error rt e.
Proof.
  unfold decodeUpdatePacket.
  destruct (packet_dataOffset packet) as [d|e'] eqn:Hd; [|discriminate].
  destruct (packet_dataOffset_bounds packet d Hd) as [Hlo Hhi].
  unfold buf_length in Hhi.
  intros H. apply snd_bind_Throw in H as [H|(a & _ & H)].
  - apply (decodeUpdateFrame_throw_origin (slice packet 0 d) 1 e); [|exact H].
    rewrite slice_0_take by lia. rewrite length_take. lia.
  - apply snd_bind_Throw in H as [H|(p & _ & H)].
    + apply (decodeUpdateFrame_throw_origin (slice_from packet d) 2 e); [|exact H].
      rewrite slice_from_drop by lia. rewrite length_drop. lia.
    + destruct (negb (truthy a) || negb (truthy p)); discriminate.
Qed.

Lemma snd_bind_Normal {A B} (m : M A) (k : A -> M B) (b : B) :
  snd (bind m k) = Normal b -> exists a, snd m = Normal a /\ snd (k a) = Normal b.
Proof.
  destruct m as [t [a|e']]; cbn [bind snd]; intros H; [eauto|discriminate].
Qed.

Lemma decodeUpdatePacket_shape (packet : Buffer) (v : value) :
  snd (decodeUpdatePacket rt packet) = Normal v ->
  v = VNull \/
  exists a p, v = UpdatePacket a p /\ truthy a = true /\ truthy p = true.
Proof.
  unfold decodeUpdatePacket.
  destruct (packet_dataOffset packet) as [d|e'].
  - intros H. apply snd_bind_Normal in H as (a & _ & H).
    apply snd_bind_Normal in H as (p & _ & H).
    destruct (truthy a) eqn:Ha, (truthy p) eqn:Hp; cbn in H;
      injection H as <-; try (left; reflexivity).
    right. exists a, p. repeat split; assumption.
  - cbn. intros [= <-]. left. reflexivity.
Qed.

(** X4. What [decodeUpdatePacket] returns is [null] or a packet whose
    action and payload are both truthy: a packet with a frame that
    decoded to [null], [false], [0] or the empty string is never
    delivered. *)
Theorem decodeUpdatePacket_result (packet : Buffer) (v : value) :
  snd (decodeUpdatePacket rt packet) = Normal v ->
  v = VNull \/
  exists a p, v = UpdatePacket a p /\ truthy a = true /\ truthy p = true.
Proof. apply decodeUpdatePacket_shape. Qed.

Lemma decodeUpdatePacket_debug_only (packet : Buffer) :
  Forall debug_only (fst (decodeUpdatePacket rt packet)).
Proof.
  assert (Hframe : forall frame expected,
            Forall debug_only (fst (decodeUpdateFrame rt frame expected))).
  { intros frame expected. unfold decodeUpdateFrame. decoder_effects. }
  unfold decodeUpdatePacket. decoder_effects; apply Hframe.
Qed.

Lemma forward_calls_app (es1 es2 : list effect) :
  forward_calls (es1 ++ es2) = forward_calls es1 ++ forward_calls es2.
Proof.
  induction es1 as [|e es1 IH]; [reflexivity|].
  destruct e; cbn [app forward_calls]; rewrite IH; reflexivity.
Qed.

Lemma forward_calls_debug_only (es : list effect) :
  Forall debug_only es -> forward_calls es = [].
Proof.
  induction 1 as [|e es He _ IH]; [reflexivity|].
  destruct e; try destruct He. exact IH.
Qed.

(** The listener after a decoded packet, as one expression. *)
Lemma onUpdateMessage_decoded (registry : value -> option Device) (data : Buffer)
  (logs : list effect) (v : value) :
  decodeUpdatePacket rt data = (logs, Normal v) ->
  onUpdateMessage rt registry data =
  (logs ++ (if truthy v then fst (routeUpdatePacket registry v)
            else [DebugLog DbgUnableToProcess]),
   if truthy v then snd (routeUpdatePacket registry v) else Normal tt).
Proof.
  intros Hdec. unfold onUpdateMessage. rewrite Hdec. cbn [bind fst snd].
  destruct (truthy v); reflexivity.
Qed.

(** X5. The [message] listener contains everything but the decoder's
    own exceptions: it throws only what [decodeUpdatePacket] threw.  It
    makes at most one forwarding call, and each call it makes is
    justified: the packet decoded to an [update] of a [camera] whose
    payload has no truthy [stats], the device is the one the registry
    gives for [action.id], and the payload forwarded is the decoded
    one. *)
Theorem onUpdateMessage_contained (registry : value -> option Device) (data : Buffer) :
  (forall e, snd (onUpdateMessage rt registry data) = Throw e ->
             snd (decodeUpdatePacket rt data) = Throw e) /\
  (length (forward_calls (fst (onUpdateMessage rt registry data))) <= 1)%nat /\
  (forall device payload,
     (device, payload) ∈ forward_calls (fst (onUpdateMessage rt registry data)) ->
     exists action,
       snd (decodeUpdatePacket rt data) = Normal (UpdatePacket action payload) /\
       prop action "action" = VStr "update" /\
       prop action "modelKey" = VStr "camera" /\
       truthy (prop payload "stats") = false /\
       registry (prop action "id") = Some device).
Proof.
  pose proof (decodeUpdatePacket_debug_only data) as Hlogs.
  destruct (decodeUpdatePacket rt data) as [logs [v|e']] eqn:Hdec.
  - pose proof (decodeUpdatePacket_shape data v) as Hshape.
    rewrite Hdec in Hshape. cbn [fst snd] in *.
    rewrite (onUpdateMessage_decoded registry data logs v Hdec). cbn [fst snd].
    rewrite forward_calls_app, (forward_calls_debug_only logs Hlogs).
    cbn [app].
    destruct (Hshape eq_refl) as [->|(a & p & -> & Ha & Hp)].
    + cbn. split; [discriminate|]. split; [lia|]. intros d p H. inversion H.
    + change (truthy (UpdatePacket a p)) with true. cbv iota.
      rewrite (routeUpdatePacket_decoded registry a p Ha Hp). cbn [fst snd].
      split; [discriminate|].
      destruct (strict_ne_string (prop a "action") "update") eqn:E1;
        [cbn; split; [lia|intros d q H; inversion H]|].
      destruct (strict_ne_string (prop a "modelKey") "camera") eqn:E2;
        [cbn; split; [lia|intros d q H; inversion H]|].
      apply strict_ne_string_false in E1, E2. cbn [orb].
      destruct (truthy (prop p "stats")) eqn:E3;
        [cbn; split; [lia|intros d q H; inversion H]|].
      destruct (registry (prop a "id")) as [device|] eqn:E4;
        [|cbn; split; [lia|intros d q H; inversion H]].
      cbn [forward_calls length]. split; [lia|].
      intros d q H. apply list_elem_of_singleton in H. injection H as -> ->.
      exists a. repeat split; assumption.
  - unfold onUpdateMessage. rewrite Hdec. cbn [bind fst snd] in *.
    rewrite (forward_calls_debug_only logs Hlogs).
    split; [intros e H; injection H as ->; reflexivity|]. split; [cbn; lia|].
    intros d p H. inversion H.
Qed.

(** X6. A message whose length does not match its headers is dropped
    with two log lines, the decode error and then the notice that the
    message could not be processed; nothing is forwarded and nothing is
    thrown. *)
Theorem onUpdateMessage_malformed (registry : value -> option Device) (data : Buffer) :
  header_lengths_agree data = false ->
  exists e, onUpdateMessage rt registry data
            = ([DebugLog (DbgDecodeError e); DebugLog DbgUnableToProcess], Normal tt).
Proof.
  intros Hbad. pose proof (packet_dataOffset_agree data) as Hagree.
  destruct (packet_dataOffset data) as [d|e] eqn:Hd.
  - destruct Hagree as [Hok _]. congruence.
  - exists e.
    rewrite (onUpdateMessage_decoded registry data _ VNull
               (decodeUpdatePacket_rejected data e Hd)).
    reflexivity.
Qed.

(** X7. [decodeUpdateFrame] reads bytes 0, 1 and 2 of the header and
    the body from offset 8; the reserved byte and the four bytes of the
    length field do not influence what it returns or logs. *)
Theorem decodeUpdateFrame_ignores_length (t0 fmt flag : byte)
  (r3 r4 r5 r6 r7 r3' r4' r5' r6' r7' : byte) (body : Buffer) (expected : Z) :
  decodeUpdateFrame rt (t0 :: fmt :: flag :: r3 :: r4 :: r5 :: r6 :: r7 :: body) expected
  = decodeUpdateFrame rt
      (t0 :: fmt :: flag :: r3' :: r4' :: r5' :: r6' :: r7' :: body) expected.
Proof.
  rewrite (decodeUpdateFrame_header rt _ expected t0 fmt flag) by reflexivity.
  rewrite (decodeUpdateFrame_header rt
             (t0 :: fmt :: flag :: r3' :: r4' :: r5' :: r6' :: r7' :: body)
             expected t0 fmt flag) by reflexivity.
  reflexivity.
Qed.

(** X8. From the wire to the device: a packet laid out with the
    documented headers, whose action is an [update] of a [camera] that
    the registry knows and whose payload is truthy without a truthy
    [stats], makes the [message] listener forward exactly that payload
    to that device, once, with nothing logged. *)
Theorem onUpdateMessage_forwards (registry : value -> option Device)
  (a : value) (p : payload_value) (device : Device)
  (ca cp : bool) (body_a stored_a body_p stored_p : Buffer) :
  serialises rt body_a (JsonPayload a) -> serialises rt body_p p ->
  stores rt ca stored_a body_a -> stores rt cp stored_p body_p ->
  buf_length stored_a < 4294967296 -> buf_length stored_p < 4294967296 ->
  prop a "action" = VStr "update" -> prop a "modelKey" = VStr "camera" ->
  truthy (delivered p) = true -> truthy (prop (delivered p) "stats") = false ->
  registry (prop a "id") = Some device ->
  onUpdateMessage rt registry
    (encodeUpdatePacket
       {| frame_format := 1; frame_compressed := ca; frame_stored := stored_a |}
       {| frame_format := format_tag p; frame_compressed := cp;
          frame_stored := stored_p |})
  = ([Forward device (delivered p)], Normal tt).
Proof.
  intros Hsa Hsp Hca Hcp Hla Hlp Hact Hkey Hp Hstats Hreg.
  assert (Ha : truthy a = true).
  { destruct a; try reflexivity; cbn in Hact; discriminate. }
  rewrite (onUpdateMessage_decoded registry _ [] (UpdatePacket a (delivered p))).
  - change (truthy (UpdatePacket a (delivered p))) with true. cbv iota.
    rewrite (routeUpdatePacket_decoded registry a (delivered p) Ha Hp).
    rewrite Hact, Hkey, Hstats, Hreg. reflexivity.
  - rewrite (decodeUpdatePacket_encode rt a p ca cp body_a stored_a body_p stored_p)
      by assumption.
    rewrite Ha, Hp. reflexivity.
Qed.

End DecoderMore.

(** * Further properties of the lifecycle *)

Section LifecycleMore.

Context (rt : Runtime).

Lemma wired_frame (w w' : world) :
  _eventListener w' = _eventListener w -> sockets w' = sockets w ->
  _eventListenerConfigured w' = _eventListenerConfigured w ->
  wired w -> wired w'.
Proof. unfold wired. intros -> -> ->. trivial. Qed.

Lemma launchUpdatesListener_wired (w : world) :
  wired w -> wired (fst (launchUpdatesListener w)).
Proof.
  intros Hw. rewrite launchUpdatesListener_cases.
  destruct (_eventListener w) eqn:El; [| |exact Hw];
    (destruct (constructor_error w);
     [ apply (wired_frame w); try reflexivity; exact Hw
     | unfold wired in *; rewrite El in Hw;
       cbn [fst launched _eventListener sockets _eventListenerConfigured];
       exists 0%nat; split; [apply lookup_insert_eq|rewrite Hw; discriminate] ]).
Qed.

Lemma configureUpdatesListener_wired (w : world) :
  wired w -> wired (fst (configureUpdatesListener w)).
Proof.
  destruct w as [l c p so iv f tmo mt lu ce gd tr]. unfold wired. js.
  destruct l; cbv beta iota; try (intros H; exact H).
  destruct c; cbv beta iota; [intros H; exact H|].
  intros (k & Hk & _). exists (S k). split; [|intros _; lia].
  rewrite lookup_alter_eq, Hk. cbn [fmap option_fmap option_map].
  rewrite replicate_S_end, app_assoc. reflexivity.
Qed.

Lemma disconnectEventListener_wired (w : world) :
  wired w -> wired (fst (disconnectEventListener w)).
Proof.
  destruct w as [l c p so iv f tmo mt lu ce gd tr]. unfold wired. js.
  destruct l; cbv beta iota; try reflexivity.
  intros (k & Hk & _). exists k. split; [exact Hk|discriminate].
Qed.

Lemma reconnectUpdatesListener_wired (w : world) :
  wired w -> wired (fst (reconnectUpdatesListener w)).
Proof.
  destruct w as [l c p so iv f tmo mt lu ce gd tr]. unfold wired. js.
  destruct l; cbv beta iota; try reflexivity.
  intros (k & Hk & _). exists k. split; [exact Hk|discriminate].
Qed.

Lemma waitForBootstrap_wired (w : world) :
  wired w -> wired (fst (waitForBootstrap w)).
Proof.
  intros Hw. unfold waitForBootstrap, jbind, jread.
  destruct (lastUpdateId w) as [cursor|].
  - unfold jlog at 1, jwrite at 1.
    assert (Hw1 : wired (record [DebugLog DbgCalledWaitForBootstrap] w))
      by (apply (wired_frame w); try reflexivity; exact Hw).
    pose proof (launchUpdatesListener_wired _ Hw1) as Hw2.
    pose proof (launchUpdatesListener_normal
                  (record [DebugLog DbgCalledWaitForBootstrap] w)) as Hr.
    destruct (launchUpdatesListener (record [DebugLog DbgCalledWaitForBootstrap] w))
      as [w2 r]. cbn [fst snd] in *. subst r.
    pose proof (configureUpdatesListener_wired _ Hw2) as Hw3.
    destruct (configureUpdatesListener w2) as [w3 [b|e]]; exact Hw3.
  - apply (wired_frame w); try reflexivity. exact Hw.
Qed.

Lemma step_wired (i : input) (w : world) :
  consistent w -> wired w -> enabled w i = true -> wired (fst (step rt i w)).
Proof.
  intros Hc Hw Hen. destruct i.
  - apply (wired_frame w); try reflexivity; exact Hw.
  - apply (wired_frame w); try reflexivity; exact Hw.
  - apply (wired_frame w); try reflexivity; exact Hw.
  - cbn [step]. rewrite fst_jbind_jret. apply launchUpdatesListener_wired, Hw.
  - cbn [step]. rewrite fst_jbind_jret. apply configureUpdatesListener_wired, Hw.
  - apply waitForBootstrap_wired, Hw.
  - apply disconnectEventListener_wired, Hw.
  - apply reconnectUpdatesListener_wired, Hw.
  - assert (Hcase : ev = SClose \/ ev <> SClose)
      by (destruct ev; (left; reflexivity) || (right; discriminate)).
    destruct Hcase as [->|Hev].
    + rewrite step_close by assumption. reflexivity.
    + cbn [step]. unfold jbind, jread.
      assert (Hskip : (match ev with
                       | SClose => jwrite (fun w0 => set_sockets (delete h (sockets w0)) w0)
                       | _ => jret tt
                       end) w = (w, Normal tt))
        by (destruct ev; try reflexivity; congruence).
      rewrite Hskip.
      destruct (emit_to_trace rt (default [] (sockets w !! h)) ev w Hev)
        as (es & -> & _).
      apply (wired_frame w); try reflexivity. exact Hw.
  - cbn [step]. pose proof (sendPingPongMessage_same w) as (E1 & E2 & _).
    apply (wired_frame w); try assumption.
    destruct w as [l c p so iv f tmo mt lu ce gd tr]. js. destruct l; reflexivity.
  - cbn [step]. unfold jbind, jwrite. apply waitForBootstrap_wired.
    apply (wired_frame w); try reflexivity. exact Hw.
  - cbn [step]. unfold jbind, jwrite. apply waitForBootstrap_wired.
    apply (wired_frame w); try reflexivity. exact Hw.
Qed.

Lemma run_wired (inputs : list input) (w : world) :
  consistent w -> wired w -> wired (run rt inputs w).
Proof.
  revert w. induction inputs as [|i rest IH]; intros w Hc Hw; cbn [run].
  - exact Hw.
  - destruct (enabled w i) eqn:Hen.
    + apply IH; [apply step_consistent|apply step_wired]; assumption.
    + apply IH; assumption.
Qed.

Lemma reachable_wired (w : world) : reachable rt w -> wired w.
Proof.
  intros (cursor & ctor & registry & inputs & ->).
  apply run_wired; [apply consistent_new|reflexivity].
Qed.

(** X9. In every reachable state at most one socket and at most one
    interval timer exist, and they belong together: a socket that can
    emit is the held listener, and a timer that can tick is the
    [_pingPong] handle of a held listener. *)
Theorem reachable_single_connection (w : world) :
  reachable rt w ->
  (size (sockets w) <= 1)%nat /\ (size (intervals w) <= 1)%nat /\
  (forall h, is_Some (sockets w !! h) -> _eventListener w = RObj h) /\
  (forall t, t ∈ intervals w ->
             _pingPong w = Some t /\ exists h, _eventListener w = RObj h).
Proof.
  intros Hreach. pose proof (reachable_consistent rt w Hreach) as Hc.
  unfold consistent in Hc. destruct (_eventListener w) as [| |h0].
  - destruct Hc as [-> ->]. rewrite map_size_empty, size_empty.
    split; [lia|]. split; [lia|]. split.
    + intros h [x Hx]. rewrite lookup_empty in Hx. discriminate.
    + intros t Ht. apply not_elem_of_empty in Ht. destruct Ht.
  - destruct Hc as [-> ->]. rewrite map_size_empty, size_empty.
    split; [lia|]. split; [lia|]. split.
    + intros h [x Hx]. rewrite lookup_empty in Hx. discriminate.
    + intros t Ht. apply not_elem_of_empty in Ht. destruct Ht.
  - destruct Hc as (ls & t0 & -> & _ & -> & -> & _).
    rewrite map_size_singleton, size_singleton.
    split; [lia|]. split; [lia|]. split.
    + intros h [x Hx]. apply lookup_singleton_Some in Hx as [-> _]. reflexivity.
    + intros t Ht. apply elem_of_singleton in Ht as ->.
      split; [reflexivity|eauto].
Qed.

(** X10. In every reachable state a socket carries the five listeners
    of [launchUpdatesListener], in their order, followed by router
    listeners only; the configured flag is set only while a socket is
    held, and then at least one router listener is installed. *)
Theorem reachable_wiring (w : world) :
  reachable rt w ->
  (_eventListenerConfigured w = true -> exists h, _eventListener w = RObj h) /\
  (forall h ls,
     sockets w !! h = Some ls ->
     exists k, ls = base_listeners ++ replicate k OnMessageUpdate /\
               (_eventListenerConfigured w = true -> (1 <= k)%nat)).
Proof.
  intros Hreach. pose proof (reachable_consistent rt w Hreach) as Hc.
  pose proof (reachable_wired w Hreach) as Hw.
  unfold consistent in Hc. unfold wired in Hw.
  destruct (_eventListener w) as [| |h0].
  - destruct Hc as [Hs _]. split; [congruence|].
    intros h ls Hl. rewrite Hs, lookup_empty in Hl. discriminate.
  - destruct Hc as [Hs _]. split; [congruence|].
    intros h ls Hl. rewrite Hs, lookup_empty in Hl. discriminate.
  - destruct Hc as (ls0 & t0 & Hs & _). destruct Hw as (k & Hk & Hflag).
    split; [eauto|]. intros h ls Hl.
    rewrite Hs in Hl, Hk. apply lookup_singleton_Some in Hl as [<- <-].
    rewrite lookup_singleton_eq in Hk. injection Hk as ->. eauto.
Qed.

(** The socket that is held, with its listeners. *)
Lemma reachable_held (w : world) (h : nat) :
  reachable rt w -> _eventListener w = RObj h ->
  exists k t,
    sockets w = {[h := base_listeners ++ replicate k OnMessageUpdate]} /\
    (_eventListenerConfigured w = true -> (1 <= k)%nat) /\
    _pingPong w = Some t /\ intervals w = {[t]} /\
    (h < fresh w)%nat /\ (t < fresh w)%nat.
Proof.
  intros Hreach El. pose proof (reachable_consistent rt w Hreach) as Hc.
  pose proof (reachable_wired w Hreach) as Hw.
  unfold consistent in Hc. unfold wired in Hw. rewrite El in Hc, Hw.
  destruct Hc as (ls & t & Hs & _ & Hp & Hi & Hh & Ht).
  destruct Hw as (k & Hk & Hflag).
  rewrite Hs, lookup_singleton_eq in Hk. injection Hk as ->.
  exists k, t. repeat split; assumption.
Qed.

Lemma sendPingPongMessage_held (w : world) (h : nat) :
  _eventListener w = RObj h ->
  sendPingPongMessage w = (record [SocketSend h; DebugLog DbgSendPing] w, Normal tt).
Proof.
  destruct w as [l c p so iv f tmo mt lu ce gd tr].
  cbn [_eventListener]. intros ->. js. cbv beta iota.
  rewrite <- app_assoc. reflexivity.
Qed.


Lemma poll_step (w : world) :
  lastUpdateId w = None -> (0 < timeouts w)%nat ->
  step rt TimeoutFires w = (record poll_round w, Normal tt).
Proof.
  destruct w as [l c p so iv f tmo mt lu ce gd tr].
  cbn [lastUpdateId timeouts]. intros -> Hpos.
  cbn [step]. js. cbv beta iota.
  replace (S (Init.Nat.pred tmo)) with tmo by lia.
  rewrite <- app_assoc. reflexivity.
Qed.

(** X12. While the cursor is missing the bootstrap poll only re-arms
    itself: after any number of due timeouts the object is as it was,
    with two lines per round added to the trace; no socket is made, no
    timer is set, and a timeout is still pending. *)
Theorem bootstrap_poll_rearms (w : world) (n : nat) :
  lastUpdateId w = None -> (0 < timeouts w)%nat ->
  run rt (replicate n TimeoutFires) w = record (concat (replicate n poll_round)) w.
Proof.
  revert w. induction n as [|n IH]; intros w Hcur Hpos.
  - cbn. destruct w; unfold record; cbn. rewrite app_nil_r. reflexivity.
  - cbn [replicate run].
    assert (Hen : enabled w TimeoutFires = true).
    { cbn [enabled]. destruct (timeouts w); [lia|reflexivity]. }
    rewrite Hen, (poll_step w Hcur Hpos). cbn [fst].
    rewrite IH by assumption. rewrite record_record. reflexivity.
Qed.

Lemma waitForBootstrap_connects (w : world) (cursor : string) :
  lastUpdateId w = Some cursor -> constructor_error w = None ->
  ref_truthy (_eventListener w) = false -> _eventListenerConfigured w = false ->
  waitForBootstrap w = (bootstrapped w, Normal tt).
Proof.
  destruct w as [l c p so iv f tmo mt lu ce gd tr].
  cbn [lastUpdateId constructor_error _eventListener _eventListenerConfigured].
  intros -> -> Hl ->. js. unfold bootstrapped, base_listeners.
  destruct l; try discriminate; cbv beta iota;
    cbn [_eventListener _eventListenerConfigured _pingPong sockets intervals
         fresh timeouts microtasks lastUpdateId constructor_error getDeviceById
         trace];
    rewrite <- ?app_assoc, ?alter_insert_eq; reflexivity.
Qed.

(** X13. From a reachable state without a socket, with the cursor
    there and the constructor succeeding, [waitForBootstrap] connects
    and configures in one go: it ends with one new socket carrying the
    five base listeners and the router, one heartbeat timer, and the
    configured flag set. *)
Theorem waitForBootstrap_connects_and_configures (w : world) (cursor : string) :
  reachable rt w ->
  lastUpdateId w = Some cursor -> constructor_error w = None ->
  ref_truthy (_eventListener w) = false ->
  waitForBootstrap w = (bootstrapped w, Normal tt) /\
  sockets (bootstrapped w) = {[fresh w := base_listeners ++ [OnMessageUpdate]]} /\
  intervals (bootstrapped w) = {[S (fresh w)]}.
Proof.
  intros Hreach Hcur Hctor Hl.
  pose proof (reachable_consistent rt w Hreach) as Hc.
  pose proof (reachable_wired w Hreach) as Hw.
  unfold consistent in Hc. unfold wired in Hw.
  destruct (_eventListener w) as [| |h] eqn:El; try discriminate;
    destruct Hc as [Hs Hi];
    (split; [apply (waitForBootstrap_connects w cursor); try assumption;
             rewrite El; reflexivity|]);
    cbn [bootstrapped sockets intervals]; rewrite Hs, Hi;
    (split; [apply insert_empty|apply (right_id_L ∅ (∪))]).
Qed.

(** X14. The connection heals itself: from a reachable state, the
    close event of the held socket followed by the queued promise
    callback, with the cursor there and the constructor succeeding,
    ends with a new socket in place of the closed one, wired and
    configured, with its own heartbeat timer and no callback left
    over. *)
Theorem close_then_reconnect (w : world) (h : nat) (cursor : string) :
  reachable rt w -> enabled w (FromSocket h SClose) = true ->
  lastUpdateId w = Some cursor -> constructor_error w = None ->
  _eventListener (run rt [FromSocket h SClose; MicrotaskRuns] w) = RObj (fresh w) /\
  fresh w <> h /\
  sockets (run rt [FromSocket h SClose; MicrotaskRuns] w)
  = {[fresh w := base_listeners ++ [OnMessageUpdate]]} /\
  intervals (run rt [FromSocket h SClose; MicrotaskRuns] w) = {[S (fresh w)]} /\
  _pingPong (run rt [FromSocket h SClose; MicrotaskRuns] w) = Some (S (fresh w)) /\
  _eventListenerConfigured (run rt [FromSocket h SClose; MicrotaskRuns] w) = true /\
  microtasks (run rt [FromSocket h SClose; MicrotaskRuns] w) = microtasks w.
Proof.
  intros Hreach Hen Hcur Hctor.
  pose proof (reachable_consistent rt w Hreach) as Hc.
  destruct (enabled_socket w h SClose Hc Hen) as (ls & El & Hs & _ & _).
  destruct (reachable_held w h Hreach El) as (k & t & _ & _ & Hp & Hi & Hh & _).
  cbn [run]. rewrite Hen, (step_close rt w h Hc Hen). cbn [fst].
  change (enabled (closed (set_sockets (delete h (sockets w)) w)) MicrotaskRuns)
    with true. cbv iota.
  cbn [step]. unfold jbind, jwrite.
  rewrite (waitForBootstrap_connects _ cursor); try reflexivity; try assumption.
  cbn [fst bootstrapped closed set_sockets set_microtasks _eventListener sockets
       intervals _pingPong _eventListenerConfigured microtasks fresh Init.Nat.pred].
  rewrite Hs, Hp, Hi, delete_singleton_eq, difference_diag_L.
  split; [reflexivity|]. split; [lia|].
  split; [apply insert_empty|]. split; [apply (right_id_L ∅ (∪))|].
  repeat split.
Qed.

(** X15. [configureUpdatesListener] is idempotent from every state: a
    second call right after the first returns [true] and changes
    nothing, so the router listener is not installed twice by calling
    it twice. *)
Theorem configureUpdatesListener_idempotent (w : world) :
  snd (configureUpdatesListener w) = Normal true /\
  configureUpdatesListener (fst (configureUpdatesListener w))
  = (fst (configureUpdatesListener w), Normal true).
Proof.
  destruct w as [l c p so iv f tmo mt lu ce gd tr]. js.
  destruct l; cbv beta iota; try (split; reflexivity).
  destruct c; cbv beta iota; split; reflexivity.
Qed.

(** X16. [disconnectEventListener] asks the held socket to close and
    lowers the configured flag, and that is all: the listener, the
    socket with its listeners and the heartbeat timer stay as they were,
    so the next tick still pings that socket. *)
Theorem disconnect_keeps_heartbeat (w : world) (h : nat) :
  reachable rt w -> _eventListener w = RObj h ->
  same_connection w (fst (disconnectEventListener w)) /\
  _eventListenerConfigured (fst (disconnectEventListener w)) = false /\
  trace (fst (disconnectEventListener w))
  = trace w ++ [DebugLog DbgCalledTerminate; SocketCloseRequested h] /\
  exists t,
    enabled (fst (disconnectEventListener w)) (IntervalTick t) = true /\
    step rt (IntervalTick t) (fst (disconnectEventListener w))
    = (record [SocketSend h; DebugLog DbgSendPing] (fst (disconnectEventListener w)),
       Normal tt).
Proof.
  intros Hreach El.
  destruct (reachable_held w h Hreach El) as (k & t & _ & _ & _ & Hi & _).
  pose proof (disconnectEventListener_same w) as Hsame.
  split; [exact Hsame|].
  destruct Hsame as (E1 & _ & _ & E4 & _).
  split; [|split].
  - destruct w as [l c p so iv f tmo mt lu ce gd tr]. js. destruct l; reflexivity.
  - destruct w as [l c p so iv f tmo mt lu ce gd tr].
    cbn [_eventListener] in El. subst l. js. cbv beta iota.
    rewrite <- app_assoc. reflexivity.
  - exists t. split.
    + cbn [enabled]. apply bool_decide_eq_true. rewrite E4, Hi.
      apply elem_of_singleton. reflexivity.
    + cbn [step]. apply sendPingPongMessage_held. rewrite E1. exact El.
Qed.

Lemma emit_to_routers_skip (k : nat) (ev : socket_event) (w : world) :
  (forall now data, ev <> SMessage now data) ->
  emit_to rt (replicate k OnMessageUpdate) ev w = (w, Normal tt).
Proof.
  intros Hev. induction k as [|k IH]; [reflexivity|].
  cbn [replicate emit_to]. unfold jbind.
  destruct ev; try (cbn [run_listener jret]; exact IH).
  exfalso. eapply Hev. reflexivity.
Qed.

Lemma emit_to_base_error (message : string) (w : world) :
  emit_to rt base_listeners (SError message) w
  = (record (error_report message) w, Normal tt).
Proof.
  destruct w as [l c p so iv f tmo mt lu ce gd tr].
  unfold base_listeners, error_report. cbn [emit_to run_listener]. js.
  destruct (String.eqb message
              "WebSocket was closed before the connection was established");
    cbv beta iota; cbn [app]; rewrite <- ?app_assoc; reflexivity.
Qed.

(** X17. An error event of the held socket changes nothing but the
    trace: the error is logged (the line with the host is left out for
    the message of a socket closed before it was established) and
    notified as the status; the socket stays held, its timer runs on,
    and no reconnection is scheduled before the close event. *)
Theorem error_event_only_reports (w : world) (h : nat) (message : string) :
  reachable rt w -> enabled w (FromSocket h (SError message)) = true ->
  step rt (FromSocket h (SError message)) w
  = (record (error_report message) w, Normal tt).
Proof.
  intros Hreach Hen. pose proof (reachable_consistent rt w Hreach) as Hc.
  destruct (enabled_socket w h _ Hc Hen) as (ls & El & _ & _ & _).
  destruct (reachable_held w h Hreach El) as (k & t & Hs & _).
  cbn [step]. unfold jbind, jread, jret.
  rewrite Hs, lookup_singleton_eq. cbn [default from_option id].
  rewrite emit_to_app. unfold jbind. rewrite emit_to_base_error.
  apply emit_to_routers_skip. discriminate.
Qed.

Lemma emit_to_base_message (now : string) (data : Buffer) (w : world) :
  emit_to rt base_listeners (SMessage now data) w
  = (record [Realtime EVENT_SETTINGS_WEBSOCKET_LASTMESSAGE (RText now)] w, Normal tt).
Proof. reflexivity. Qed.

Lemma run_router (now : string) (data : Buffer) (es : list effect) (w : world) :
  run_listener rt OnMessageUpdate (SMessage now data) (record es w)
  = (record (es ++ fst (onUpdateMessage rt (getDeviceById w) data)) w,
     snd (onUpdateMessage rt (getDeviceById w) data)).
Proof.
  cbn [run_listener]. unfold jbind, jread, jrun.
  change (getDeviceById (record es w)) with (getDeviceById w).
  rewrite record_record. reflexivity.
Qed.

Lemma emit_to_routers_message (k : nat) (now : string) (data : Buffer)
  (es : list effect) (w : world) :
  snd (onUpdateMessage rt (getDeviceById w) data) = Normal tt ->
  emit_to rt (replicate k OnMessageUpdate) (SMessage now data) (record es w)
  = (record (es ++ concat (replicate k (fst (onUpdateMessage rt (getDeviceById w) data))))
       w, Normal tt).
Proof.
  intros Hm. revert es. induction k as [|k IH]; intros es.
  - cbn. rewrite app_nil_r. reflexivity.
  - cbn [replicate emit_to concat]. unfold jbind.
    rewrite run_router, Hm, IH, app_assoc. reflexivity.
Qed.

(** X18. A message event of the held socket is stamped first and
    routed after: the last-message notification comes before anything
    the router does, and the router runs once per router listener on the
    socket.  When the router returns normally the event ends normally;
    when it throws with the socket configured, the exception leaves the
    emission after the stamp and the router's own log lines. *)
Theorem message_event_stamps_then_routes (w : world) (h : nat)
  (now : string) (data : Buffer) :
  reachable rt w -> enabled w (FromSocket h (SMessage now data)) = true ->
  exists k,
    sockets w !! h = Some (base_listeners ++ replicate k OnMessageUpdate) /\
    (snd (onUpdateMessage rt (getDeviceById w) data) = Normal tt ->
     step rt (FromSocket h (SMessage now data)) w
     = (record (Realtime EVENT_SETTINGS_WEBSOCKET_LASTMESSAGE (RText now)
                :: concat (replicate k
                             (fst (onUpdateMessage rt (getDeviceById w) data))))
          w, Normal tt)) /\
    (forall e,
       snd (onUpdateMessage rt (getDeviceById w) data) = Throw e ->
       _eventListenerConfigured w = true ->
       step rt (FromSocket h (SMessage now data)) w
       = (record (Realtime EVENT_SETTINGS_WEBSOCKET_LASTMESSAGE (RText now)
                  :: fst (onUpdateMessage rt (getDeviceById w) data))
            w, Throw e)).
Proof.
  intros Hreach Hen. pose proof (reachable_consistent rt w Hreach) as Hc.
  destruct (enabled_socket w h _ Hc Hen) as (ls & El & _ & _ & _).
  destruct (reachable_held w h Hreach El) as (k & t & Hs & Hflag & _).
  exists k. rewrite Hs, lookup_singleton_eq. split; [reflexivity|].
  assert (Hstep : step rt (FromSocket h (SMessage now data)) w
                  = emit_to rt (replicate k OnMessageUpdate) (SMessage now data)
                      (record [Realtime EVENT_SETTINGS_WEBSOCKET_LASTMESSAGE
                                 (RText now)] w)).
  { cbn [step]. unfold jbind, jread, jret.
    rewrite Hs, lookup_singleton_eq. cbn [default from_option id].
    rewrite emit_to_app. unfold jbind. rewrite emit_to_base_message. reflexivity. }
  rewrite Hstep. split.
  - intros Hm. rewrite (emit_to_routers_message k now data _ w Hm). reflexivity.
  - intros e Hm Hconf. destruct k as [|k]; [specialize (Hflag Hconf); lia|].
    cbn [replicate emit_to]. unfold jbind. rewrite run_router, Hm. reflexivity.
Qed.

(** X19. [reconnectUpdatesListener] on a connection that is up and
    configured does not replace the socket: the close is only requested,
    and the queued [waitForBootstrap] finds the listener still held,
    skips the launch and configures the same socket again.  Until the
    close event arrives that socket carries at least two router
    listeners. *)
Theorem reconnect_on_live_socket_adds_router (w : world) (h : nat) (cursor : string) :
  reachable rt w -> _eventListener w = RObj h ->
  _eventListenerConfigured w = true -> lastUpdateId w = Some cursor ->
  _eventListener (run rt [CallReconnectUpdatesListener; MicrotaskRuns] w) = RObj h /\
  _eventListenerConfigured (run rt [CallReconnectUpdatesListener; MicrotaskRuns] w)
  = true /\
  exists k,
    (2 <= k)%nat /\
    sockets (run rt [CallReconnectUpdatesListener; MicrotaskRuns] w) !! h
    = Some (base_listeners ++ replicate k OnMessageUpdate).
Proof.
  intros Hreach El Hconf Hcur.
  destruct (reachable_held w h Hreach El) as (k & t & Hs & Hflag & _).
  specialize (Hflag Hconf).
  destruct w as [l c p so iv f tmo mt lu ce gd tr].
  cbn [_eventListener _eventListenerConfigured lastUpdateId sockets] in *.
  subst l c lu so.
  cbv [run enabled step Nat.eqb Init.Nat.pred]. js. cbv beta iota.
  split; [reflexivity|]. split; [reflexivity|].
  exists (S k). split; [lia|].
  rewrite lookup_alter_eq, lookup_singleton_eq. cbn [fmap option_fmap option_map].
  rewrite replicate_S_end, app_assoc. reflexivity.
Qed.

End LifecycleMore.

(** * Properties of the camera device *)

Lemma ensure_camera_class_spec (s : D) :
  device_class (fst (ensure_camera_class s)) = "camera"%string /\
  capabilities (fst (ensure_camera_class s)) = capabilities (fst s).
Proof.
  unfold ensure_camera_class.
  destruct (String.eqb (device_class (fst s)) "camera") eqn:E; cbn.
  - apply String.eqb_eq in E. split; [exact E|reflexivity].
  - split; reflexivity.
Qed.

Lemma add_if_missing_spec (c : string) (s : D) :
  device_class (fst (add_if_missing c s)) = device_class (fst s) /\
  capabilities (fst (add_if_missing c s)) = {[c]} ∪ capabilities (fst s).
Proof.
  unfold add_if_missing. case_bool_decide as Hin; cbn.
  - split; [reflexivity|]. symmetry. apply subseteq_union_1_L.
    apply singleton_subseteq_l, Hin.
  - split; reflexivity.
Qed.

Lemma remove_if_present_spec (c : string) (s : D) :
  device_class (fst (remove_if_present c s)) = device_class (fst s) /\
  capabilities (fst (remove_if_present c s)) = capabilities (fst s) ∖ {[c]}.
Proof.
  unfold remove_if_present. case_bool_decide as Hin; cbn.
  - split; reflexivity.
  - split; [reflexivity|]. symmetry. apply difference_disjoint_L.
    apply disjoint_singleton_r, Hin.
Qed.

Lemma provided_not_outdated (x : string) :
  x ∈ provided_capabilities -> x <> "last_motion_datetime"%string.
Proof.
  unfold provided_capabilities. rewrite !elem_of_union, !elem_of_singleton.
  intros H. repeat (destruct H as [H|H]; [|rewrite H; discriminate]).
  rewrite H. discriminate.
Qed.

Lemma _createMissingCapabilities_provides_aux (device : camera) :
  device_class (fst (_createMissingCapabilities device)) = "camera"%string /\
  capabilities (fst (_createMissingCapabilities device))
  = (capabilities device ∖ {["last_motion_datetime"%string]}) ∪ provided_capabilities.
Proof.
  unfold _createMissingCapabilities. cbv zeta.
  repeat (rewrite ?(proj1 (add_if_missing_spec _ _)),
                  ?(proj2 (add_if_missing_spec _ _)),
                  ?(proj1 (remove_if_present_spec _ _)),
                  ?(proj2 (remove_if_present_spec _ _))).
  destruct (ensure_camera_class_spec (device, [])) as [-> ->]. cbn [fst].
  split; [reflexivity|]. apply set_eq. intros x.
  pose proof (provided_not_outdated x) as Hx. unfold provided_capabilities in *.
  rewrite !elem_of_union, !elem_of_difference, !elem_of_union,
    !elem_of_singleton in *.
  tauto.
Qed.

(** X20. After [_createMissingCapabilities] the device is of class
    [camera] and has the ten provided capabilities; the outdated
    [last_motion_datetime] is gone, and every other capability it had
    is still there. *)
Theorem _createMissingCapabilities_provides (device : camera) :
  device_class (fst (_createMissingCapabilities device)) = "camera"%string /\
  capabilities (fst (_createMissingCapabilities device))
  = (capabilities device ∖ {["last_motion_datetime"%string]}) ∪ provided_capabilities.
Proof. apply _createMissingCapabilities_provides_aux. Qed.

Lemma ensure_camera_class_done (s : D) :
  device_class (fst s) = "camera"%string -> ensure_camera_class s = s.
Proof. unfold ensure_camera_class. intros ->. reflexivity. Qed.

Lemma add_if_missing_done (c : string) (s : D) :
  c ∈ capabilities (fst s) -> add_if_missing c s = s.
Proof.
  unfold add_if_missing. intros Hin. rewrite bool_decide_eq_true_2 by exact Hin.
  reflexivity.
Qed.

Lemma remove_if_present_done (c : string) (s : D) :
  c ∉ capabilities (fst s) -> remove_if_present c s = s.
Proof.
  unfold remove_if_present. intros Hin. rewrite bool_decide_eq_false_2 by exact Hin.
  reflexivity.
Qed.

Ltac provided_member Hsub :=
  apply Hsub; unfold provided_capabilities;
  rewrite ?elem_of_union, ?elem_of_singleton; intuition reflexivity.

Lemma provisioned_no_calls (device : camera) :
  device_class device = "camera"%string ->
  provided_capabilities ⊆ capabilities device ->
  "last_motion_datetime"%string ∉ capabilities device ->
  _createMissingCapabilities device = (device, []).
Proof.
  intros Hcls Hsub Hdt. unfold _createMissingCapabilities. cbv zeta.
  rewrite (ensure_camera_class_done (device, [])) by exact Hcls.
  rewrite !(add_if_missing_done _ (device, [])) by (cbn [fst]; provided_member Hsub).
  rewrite (remove_if_present_done _ (device, [])) by exact Hdt.
  rewrite !(add_if_missing_done _ (device, [])) by (cbn [fst]; provided_member Hsub).
  reflexivity.
Qed.

(** X21. [_createMissingCapabilities] is idempotent: run again on the
    device it produced, it changes nothing and makes no call to the
    platform, not even a log line. *)
Theorem _createMissingCapabilities_idempotent (device : camera) :
  _createMissingCapabilities (fst (_createMissingCapabilities device))
  = (fst (_createMissingCapabilities device), []).
Proof.
  destruct (_createMissingCapabilities_provides_aux device) as [Hcls Hcaps].
  apply provisioned_no_calls.
  - exact Hcls.
  - rewrite Hcaps. apply union_subseteq_r.
  - rewrite Hcaps. unfold provided_capabilities.
    rewrite !elem_of_union, elem_of_difference, !elem_of_singleton.
    intros H. repeat (destruct H as [H|H]; try discriminate H).
    destruct H as [_ H]. apply H. reflexivity.
Qed.

Ltac member_cases H :=
  cbn [app] in H;
  repeat (apply elem_of_cons in H as [H|H]; [try discriminate H|]);
  try (apply elem_of_nil in H; destruct H).

Ltac member_here :=
  cbn [app]; repeat first [apply list_elem_of_here | apply list_elem_of_further].

(** X22. [onMotionDetected] writes [alarm_motion] only for an event
    strictly newer than the stored time, with the truthiness of
    [isMotionDetected], and never without writing [last_motion_at] in
    the same call; what it writes to [last_motion_at] is the event's
    time, and only when nothing was stored or the event is strictly
    newer.  An event that is not newer than a stored time causes no call
    at all. *)
Theorem onMotionDetected_writes
  (toLocaleDateString toLocaleTimeString : spec_float -> string)
  (lastMotionAt : option spec_float) (lastMotionTime : spec_float)
  (isMotionDetected : value) :
  (forall v,
     SetCapabilityValue "alarm_motion" v
       ∈ onMotionDetected toLocaleDateString toLocaleTimeString
           lastMotionAt lastMotionTime isMotionDetected ->
     v = VBool (truthy isMotionDetected) /\
     stored_truthy lastMotionAt = true /\
     newer_than lastMotionTime lastMotionAt = true /\
     SetCapabilityValue "last_motion_at" (VNum lastMotionTime)
       ∈ onMotionDetected toLocaleDateString toLocaleTimeString
           lastMotionAt lastMotionTime isMotionDetected) /\
  (forall v,
     SetCapabilityValue "last_motion_at" v
       ∈ onMotionDetected toLocaleDateString toLocaleTimeString
           lastMotionAt lastMotionTime isMotionDetected ->
     v = VNum lastMotionTime /\
     (stored_truthy lastMotionAt = false \/
      newer_than lastMotionTime lastMotionAt = true)) /\
  (stored_truthy lastMotionAt = true ->
   newer_than lastMotionTime lastMotionAt = false ->
   onMotionDetected toLocaleDateString toLocaleTimeString
     lastMotionAt lastMotionTime isMotionDetected = []).
Proof.
  unfold onMotionDetected, onMotionStart, onMotionEnd.
  destruct (stored_truthy lastMotionAt), (truthy isMotionDetected),
    (newer_than lastMotionTime lastMotionAt); cbn [negb andb];
    (split; [|split]);
    try (intros v H; member_cases H;
         try (injection H as <-);
         repeat split; try reflexivity; try (left; reflexivity);
         try (right; reflexivity); member_here);
    try (intros; reflexivity); try (intros; discriminate).
Qed.

(** X23. [onDoorbellRinging] triggers the flow exactly when a time is
    stored and the ring is strictly newer.  It writes [last_ring_at]
    only while nothing is stored, with the ring's time, and makes no
    other write: a ring that triggers does not advance the stored
    time, and the first ring triggers nothing. *)
Theorem onDoorbellRinging_discipline (debug : bool)
  (lastRingAt : option spec_float) (lastRing : spec_float) :
  (DoorbellRingingTrigger ∈ onDoorbellRinging debug lastRingAt lastRing <->
   stored_truthy lastRingAt = true /\ newer_than lastRing lastRingAt = true) /\
  (forall capability v,
     SetCapabilityValue capability v ∈ onDoorbellRinging debug lastRingAt lastRing ->
     capability = "last_ring_at"%string /\ v = VNum lastRing /\
     stored_truthy lastRingAt = false) /\
  (stored_truthy lastRingAt = false ->
   SetCapabilityValue "last_ring_at" (VNum lastRing)
     ∈ onDoorbellRinging debug lastRingAt lastRing).
Proof.
  unfold onDoorbellRinging.
  destruct (stored_truthy lastRingAt), (newer_than lastRing lastRingAt), debug;
    cbn [negb andb app];
    (split; [split; [intros H; member_cases H; split; reflexivity
                    |intros [H1 H2]; try discriminate; member_here]
            |split; [intros c v H; member_cases H;
                     try (injection H as <- <-); repeat split; reflexivity
                    |intros H; try discriminate; member_here]]).
Qed.

(** * The further properties on sample data *)

Lemma connected_object_reachable : reachable ref_runtime connected_object.
Proof.
  exists (Some "1"%string), None, one_camera, [CallWaitForBootstrap]. reflexivity.
Defined.

Lemma decodeUpdatePacket_short_witness :
  exists e, decodeUpdatePacket ref_runtime []
            = ([DebugLog (DbgDecodeError e)], Normal VNull).
Proof. apply (decodeUpdatePacket_short ref_runtime []). reflexivity. Defined.

Lemma decodeUpdatePacket_throw_origin_witness :
  codec_error ref_runtime SyntaxError.
Proof.
  apply (decodeUpdatePacket_throw_origin ref_runtime unparseable_packet SyntaxError).
  reflexivity.
Defined.

Lemma decodeUpdatePacket_result_witness :
  UpdatePacket camera_update (VStr "motion") = VNull \/
  exists a p, UpdatePacket camera_update (VStr "motion") = UpdatePacket a p /\
              truthy a = true /\ truthy p = true.
Proof.
  apply (decodeUpdatePacket_result ref_runtime motion_packet).
  vm_compute. reflexivity.
Defined.

Lemma onUpdateMessage_malformed_witness :
  exists e, onUpdateMessage ref_runtime one_camera [x01; x01; x00]
            = ([DebugLog (DbgDecodeError e); DebugLog DbgUnableToProcess], Normal tt).
Proof.
  apply (onUpdateMessage_malformed ref_runtime one_camera [x01; x01; x00]).
  reflexivity.
Defined.

Lemma onUpdateMessage_forwards_witness :
  onUpdateMessage ref_runtime one_camera motion_packet
  = ([Forward 7%nat (VStr "motion")], Normal tt).
Proof.
  apply (onUpdateMessage_forwards ref_runtime one_camera camera_update
           (TextPayload "motion") 7%nat false false
           camera_update_text camera_update_text
           (ascii_bytes "motion") (ascii_bytes "motion")).
  - vm_compute. reflexivity.
  - reflexivity.
  - reflexivity.
  - reflexivity.
  - reflexivity.
  - reflexivity.
  - reflexivity.
  - reflexivity.
  - reflexivity.
  - reflexivity.
  - reflexivity.
Defined.

Lemma reachable_single_connection_witness :
  (size (sockets connected_object) <= 1)%nat /\
  (size (intervals connected_object) <= 1)%nat.
Proof.
  destruct (reachable_single_connection ref_runtime connected_object
              connected_object_reachable) as (Hs & Hi & _).
  split; [exact Hs|exact Hi].
Defined.

Lemma reachable_wiring_witness :
  exists k, [OnPong; OnMessageStamp; OnOpen; OnClose; OnError; OnMessageUpdate]
            = base_listeners ++ replicate k OnMessageUpdate /\
            (_eventListenerConfigured connected_object = true -> (1 <= k)%nat).
Proof.
  apply (proj2 (reachable_wiring ref_runtime connected_object
                  connected_object_reachable) 0%nat).
  vm_compute. reflexivity.
Defined.


Lemma bootstrap_poll_rearms_witness :
  run ref_runtime (replicate 3 TimeoutFires) polling_object
  = record (concat (replicate 3 poll_round)) polling_object.
Proof.
  apply (bootstrap_poll_rearms ref_runtime polling_object 3).
  - reflexivity.
  - vm_compute. lia.
Defined.

Lemma waitForBootstrap_connects_and_configures_witness :
  waitForBootstrap (fresh_object None) = (bootstrapped (fresh_object None), Normal tt).
Proof.
  assert (Hreach : reachable ref_runtime (fresh_object None)).
  { exists (Some "1"%string), None, one_camera, []. reflexivity. }
  exact (proj1 (waitForBootstrap_connects_and_configures ref_runtime
                  (fresh_object None) "1" Hreach eq_refl eq_refl eq_refl)).
Defined.

Lemma close_then_reconnect_witness :
  _eventListener (run ref_runtime [FromSocket 0 SClose; MicrotaskRuns] connected_object)
  = RObj 2.
Proof.
  assert (Hen : enabled connected_object (FromSocket 0 SClose) = true)
    by (vm_compute; reflexivity).
  exact (proj1 (close_then_reconnect ref_runtime connected_object 0%nat "1"
                  connected_object_reachable Hen eq_refl eq_refl)).
Defined.

Lemma disconnect_keeps_heartbeat_witness :
  trace (fst (disconnectEventListener connected_object))
  = trace connected_object ++ [DebugLog DbgCalledTerminate; SocketCloseRequested 0].
Proof.
  assert (El : _eventListener connected_object = RObj 0) by reflexivity.
  exact (proj1 (proj2 (proj2 (disconnect_keeps_heartbeat ref_runtime
                                connected_object 0%nat
                                connected_object_reachable El)))).
Defined.

Lemma error_event_only_reports_witness :
  step ref_runtime (FromSocket 0 (SError "socket hang up")) connected_object
  = (record (error_report "socket hang up") connected_object, Normal tt).
Proof.
  apply (error_event_only_reports ref_runtime connected_object 0%nat "socket hang up"
           connected_object_reachable).
  vm_compute. reflexivity.
Defined.

Lemma message_event_stamps_then_routes_witness :
  exists k,
    sockets connected_object !! 0%nat
    = Some (base_listeners ++ replicate k OnMessageUpdate).
Proof.
  assert (Hen : enabled connected_object (FromSocket 0 (SMessage "now" motion_packet))
                = true) by (vm_compute; reflexivity).
  destruct (message_event_stamps_then_routes ref_runtime connected_object 0%nat
              "now" motion_packet connected_object_reachable Hen) as (k & Hk & _).
  exists k. exact Hk.
Defined.

Lemma reconnect_on_live_socket_adds_router_witness :
  _eventListener
    (run ref_runtime [CallReconnectUpdatesListener; MicrotaskRuns] connected_object)
  = RObj 0.
Proof.
  assert (El : _eventListener connected_object = RObj 0) by reflexivity.
  assert (Hconf : _eventListenerConfigured connected_object = true) by reflexivity.
  exact (proj1 (reconnect_on_live_socket_adds_router ref_runtime connected_object
                  0%nat "1" connected_object_reachable El Hconf eq_refl)).
Defined.
